(** * The Infoblox provider of external-dns: diffing, zone routing, PTR marks

    A shallow embedding of [internal/infoblox/infoblox.go]: the zone router
    ([findZone], [findReverseZone]), the change batcher ([ChangesByZone]),
    the target differ ([CountDiff] and the fan-out of [ApplyChanges]), the
    PTR marking of [Records] and [AdjustEndpoints], and the handling of
    backend failures in [zones] and [Records].

    Go values are modelled as follows.
    - a [string] is a Rocq [string] (a sequence of bytes), [len] is [String.length];
    - a byte slice ([net.IP], [net.IPMask]) is a [list Z], [nil] is [[]];
    - [*endpoint.Endpoint] is an index into a store of endpoints where the
      code mutates through the pointer ([CountDiff]), and a value elsewhere;
    - a Go [map] is a [gmap]; the order of a [range] over a map is not fixed
      by the language, so it is a parameter of the functions that range;
    - a panic (index out of range, nil dereference) is [None]. *)

From Stdlib Require Import ZArith Ascii String List Permutation Lia.
From stdpp Require Import base option list gmap strings fin_maps.

Open Scope string_scope.
Open Scope list_scope.

(** ** Part of the Go library the provider calls *)

Module Net.

(** [net.IP] and [net.IPMask] are byte slices. *)
Definition IP := list Z.
Definition IPMask := list Z.

Record IPNet := { IPNet_IP : IP; IPNet_Mask : IPMask }.

Definition IPv4len : nat := 4.
Definition IPv6len : nat := 16.

Definition isZeros (p : list Z) : bool := forallb (Z.eqb 0) p.

(** [IP.To4]: the 4-byte form of an IPv4 address, [nil] otherwise. *)
Definition To4 (ip : IP) : IP :=
  if Nat.eqb (length ip) IPv4len then ip
  else if Nat.eqb (length ip) IPv6len
          && isZeros (take 10 ip)
          && Z.eqb (nth 10 ip 0%Z) 255
          && Z.eqb (nth 11 ip 0%Z) 255
       then take 4 (drop 12 ip)
       else [].

Definition isNil (p : list Z) : bool := match p with [] => true | _ => false end.

(** [networkNumberAndMask]: [(nil, nil)] is [([], [])]. *)
Definition networkNumberAndMask (n : IPNet) : IP * IPMask :=
  let ip4 := To4 (IPNet_IP n) in
  let ip := if isNil ip4 then IPNet_IP n else ip4 in
  if isNil ip4 && negb (Nat.eqb (length ip) IPv6len) then ([], [])
  else
    let m := IPNet_Mask n in
    if Nat.eqb (length m) IPv4len then
      if negb (Nat.eqb (length ip) IPv4len) then ([], []) else (ip, m)
    else if Nat.eqb (length m) IPv6len then
      if Nat.eqb (length ip) IPv4len then (ip, drop 12 m) else (ip, m)
    else ([], []).

(** The loop of [Contains]: [nn[i]&m[i] != ip[i]&m[i]] ends it with false.
    The three slices have one length when the loop runs. *)
Fixpoint sameNetwork (nn m ip : list Z) : bool :=
  match nn, m, ip with
  | a :: nn', k :: m', b :: ip' =>
      if Z.eqb (Z.land a k) (Z.land b k) then sameNetwork nn' m' ip' else false
  | _, _, _ => true
  end.

(** [Contains] of [IPNet]. *)
Definition Contains (n : IPNet) (ip : IP) : bool :=
  let '(nn, m) := networkNumberAndMask n in
  let x := To4 ip in
  let ip := if isNil x then ip else x in
  if negb (Nat.eqb (length ip) (length nn)) then false
  else sameNetwork nn m ip.

(** The inner loop of [simpleMaskLength]: count the leading one bits of a
    byte, [v <<= 1] on a [uint8]; what is left of [v] is returned with
    the count. A byte has eight bits. *)
Fixpoint leadingOnes (fuel : nat) (v : Z) (n : Z) : Z * Z :=
  match fuel with
  | O => (v, n)
  | S fuel' =>
      if negb (Z.eqb (Z.land v 128) 0)
      then leadingOnes fuel' (Z.land (Z.shiftl v 1) 255) (n + 1)%Z
      else (v, n)
  end.

(** [simpleMaskLength]: [-1] when the mask is not ones followed by zeros. *)
Fixpoint simpleMaskLength_from (mask : list Z) (n : Z) : Z :=
  match mask with
  | [] => n
  | v :: rest =>
      if Z.eqb v 255 then simpleMaskLength_from rest (n + 8)%Z
      else
        let '(v', n') := leadingOnes 8 v n in
        if negb (Z.eqb v' 0) then (-1)%Z
        else if forallb (Z.eqb 0) rest then n' else (-1)%Z
  end.

Definition simpleMaskLength (mask : IPMask) : Z := simpleMaskLength_from mask 0%Z.

(** [IPMask.Size]: [(ones, bits)]. *)
Definition Size (m : IPMask) : Z * Z :=
  let ones := simpleMaskLength m in
  let bits := (Z.of_nat (length m) * 8)%Z in
  if Z.eqb ones (-1) then (0%Z, 0%Z) else (ones, bits).

(** [CIDRMask ones bits], for [bits] 32 or 128 and [0 <= ones <= bits]. *)
Fixpoint CIDRMask_bytes (l : nat) (n : Z) : list Z :=
  match l with
  | O => []
  | S l' =>
      if (8 <=? n)%Z then 255%Z :: CIDRMask_bytes l' (n - 8)%Z
      else Z.lxor 255 (Z.shiftr 255 n) :: CIDRMask_bytes l' 0%Z
  end.

Definition CIDRMask (ones bits : Z) : IPMask :=
  CIDRMask_bytes (Z.to_nat (bits / 8)) ones.

End Net.

(** What the provider takes from Go's [strings] and [net] packages and
    this development does not fix: any functions of these types will do
    for the general theorems. *)
Class GoLib := {
  EqualFold : string → string → bool;          (* strings.EqualFold *)
  ParseIP : string → Net.IP;                   (* net.ParseIP, nil is [] *)
  ParseCIDR : string → option Net.IPNet;       (* net.ParseCIDR, an error is None *)
}.

(** [strings.HasSuffix]:
    [len(s) >= len(suffix) && s[len(s)-len(suffix):] == suffix]. *)
Definition HasSuffix (s suffix : string) : bool :=
  (String.length suffix <=? String.length s)%nat
  && String.eqb
       (substring (String.length s - String.length suffix) (String.length suffix) s)
       suffix.

(** ** Data model *)

(** [ibclient.ZoneAuth], the fields the provider reads. *)
Record ZoneAuth := { Ref : string; Fqdn : string }.

(** [endpoint.ProviderSpecificProperty]. *)
Record ProviderSpecificProperty := { Name : string; Value : string }.

(** [endpoint.Endpoint], the fields the provider reads or writes. *)
Record Endpoint := {
  DNSName : string;
  Targets : list string;
  RecordType : string;
  RecordTTL : Z;
  ProviderSpecific : list ProviderSpecificProperty;
}.

Definition RecordTypeA := "A".
Definition RecordTypeCNAME := "CNAME".
Definition RecordTypeTXT := "TXT".
Definition RecordTypePTR := "PTR".

Definition providerSpecificInfobloxPtrRecord := "infoblox-ptr-record-exists".
Definition infobloxCreate := "CREATE".
Definition infobloxDelete := "DELETE".
Definition infobloxUpdate := "UPDATE".

(** [StartupConfig], the fields [zones], [Records], [AdjustEndpoints] and
    [ChangesByZone] read. *)
Record StartupConfig := {
  View : string;
  CreatePTR : bool;
  DefaultTTL : Z;
  ExtAttrsJSON : string;
}.

Record infobloxChange := { Action : string; Endpoint_ : Endpoint }.

#[global] Instance ZoneAuth_eq_dec : EqDecision ZoneAuth.
Proof. solve_decision. Defined.
#[global] Instance ProviderSpecificProperty_eq_dec : EqDecision ProviderSpecificProperty.
Proof. solve_decision. Defined.
#[global] Instance Endpoint_eq_dec : EqDecision Endpoint.
Proof. solve_decision. Defined.
#[global] Instance infobloxChange_eq_dec : EqDecision infobloxChange.
Proof. solve_decision. Defined.

(** ** Zone router *)

Section Router.
Context {lib : GoLib}.

(** The update of [result] both branches of [findZone] make. *)
Definition longer (result : option ZoneAuth) (zone : ZoneAuth) : option ZoneAuth :=
  match result with
  | None => Some zone
  | Some r =>
      if (String.length (Fqdn r) <? String.length (Fqdn zone))%nat
      then Some zone else result
  end.

Definition findZone_step (name : string) (result : option ZoneAuth) (zone : ZoneAuth)
  : option ZoneAuth :=
  if HasSuffix name ("." +:+ Fqdn zone) then longer result zone
  else if EqualFold name (Fqdn zone) then longer result zone
  else result.

(** [findZone]: [None] is the nil result. *)
Definition findZone (zones : list ZoneAuth) (name : string) : option ZoneAuth :=
  foldl (findZone_step name) None zones.

(** The body of the loop of [findReverseZone] over [(networks, maxMask)].
    [mask] is the second result of [Mask.Size()]. *)
Definition findReverseZone_step (ip : Net.IP)
    (st : gmap Z ZoneAuth * Z) (zone : ZoneAuth) : gmap Z ZoneAuth * Z :=
  let '(networks, maxMask) := st in
  match ParseCIDR (Fqdn zone) with
  | None => st
  | Some rZoneNet =>
      if Net.Contains rZoneNet ip then
        let mask := snd (Net.Size (Net.IPNet_Mask rZoneNet)) in
        (<[mask := zone]> networks, if (maxMask <? mask)%Z then mask else maxMask)
      else st
  end.

Definition findReverseZone (zones : list ZoneAuth) (name : string) : option ZoneAuth :=
  let ip := ParseIP name in
  let '(networks, maxMask) := foldl (findReverseZone_step ip) (∅, 0%Z) zones in
  networks !! maxMask.

End Router.


(** ** Change batcher *)

(** A loop whose body may panic. *)
Fixpoint foldlM {A B : Type} (f : B → A → option B) (b : B) (l : list A) : option B :=
  match l with
  | [] => Some b
  | a :: l' => b' ← f b a; foldlM f b' l'
  end.

(** [changes[k] = append(changes[k], c)]; a missing key reads as nil. *)
Definition appendChange (k : string) (c : infobloxChange)
    (changes : gmap string (list infobloxChange)) : gmap string (list infobloxChange) :=
  <[k := default [] (changes !! k) ++ [c]]> changes.

(** The first loop of [ChangesByZone]: every zone gets an empty list. *)
Definition seedZones (zones : list ZoneAuth) : gmap string (list infobloxChange) :=
  foldl (fun changes z => <[Fqdn z := []]> changes) ∅ zones.

(** [copyEp := *c.Endpoint; copyEp.RecordType = endpoint.RecordTypePTR]. *)
Definition ptrCopy (ep : Endpoint) : Endpoint :=
  {| DNSName := DNSName ep;
     Targets := Targets ep;
     RecordType := RecordTypePTR;
     RecordTTL := RecordTTL ep;
     ProviderSpecific := ProviderSpecific ep |}.

Section Batcher.
Context {lib : GoLib}.
Variable config : StartupConfig.

(** The body of the second loop of [ChangesByZone]. [c.Endpoint.Targets[0]]
    panics on an empty target list. *)
Definition routeChange (zones : list ZoneAuth)
    (changes : gmap string (list infobloxChange)) (c : infobloxChange)
  : option (gmap string (list infobloxChange)) :=
  match findZone zones (DNSName (Endpoint_ c)) with
  | None => Some changes
  | Some zone =>
      if String.eqb (Fqdn zone) "" then Some changes
      else
        let changes := appendChange (Fqdn zone) c changes in
        if CreatePTR config && String.eqb (RecordType (Endpoint_ c)) RecordTypeA then
          target ← Targets (Endpoint_ c) !! 0%nat;
          match findReverseZone zones target with
          | None => Some changes
          | Some reverseZone =>
              Some (appendChange (Fqdn reverseZone)
                      {| Action := Action c; Endpoint_ := ptrCopy (Endpoint_ c) |}
                      changes)
          end
        else Some changes
  end.

Definition ChangesByZone (zones : list ZoneAuth) (changeSets : list infobloxChange)
  : option (gmap string (list infobloxChange)) :=
  foldlM (routeChange zones) (seedZones zones) changeSets.

End Batcher.

(** ** An instance of the library for dotted-decimal literals

    The examples below run the provider on IPv4 literals and ASCII names.
    On these the functions of this instance are Go's: [parseIPv4Fields] and
    [dtoi] are transcribed from [net/netip] and [net]. A literal with a
    colon (IPv6) is outside the instance and is rejected by it. *)

Module IPv4Lib.

Definition isDigit (c : ascii) : bool :=
  (48 <=? nat_of_ascii c)%nat && (nat_of_ascii c <=? 57)%nat.

Definition digitVal (c : ascii) : Z := (Z.of_nat (nat_of_ascii c) - 48)%Z.

Definition isDot (c : ascii) : bool := Ascii.eqb c ".".

(** The loop of [parseIPv4Fields] over [s[i:]]: [first] says [i == 0],
    [prev] is [s[i-1]], [fields] holds the [pos] octets stored so far. *)
Fixpoint parseIPv4Fields (s : list ascii) (first : bool) (prev : ascii)
    (val : Z) (digLen : nat) (fields : list Z) : option (list Z) :=
  match s with
  | [] => if (length fields <? 3)%nat then None else Some (fields ++ [val])
  | c :: rest =>
      if isDigit c then
        if Nat.eqb digLen 1 && Z.eqb val 0 then None
        else
          let val' := (val * 10 + digitVal c)%Z in
          if (255 <? val')%Z then None
          else parseIPv4Fields rest false c val' (S digLen) fields
      else if isDot c then
        if first || match rest with [] => true | _ => false end || isDot prev then None
        else if Nat.eqb (length fields) 3 then None
        else parseIPv4Fields rest false c 0%Z 0%nat (fields ++ [val])
      else None
  end.

(** The scan of [netip.ParseAddr] for the first of '.', ':' and '%'. *)
Fixpoint firstSeparator (s : list ascii) : option ascii :=
  match s with
  | [] => None
  | c :: rest =>
      if isDot c || Ascii.eqb c ":" || Ascii.eqb c "%" then Some c
      else firstSeparator rest
  end.

Definition ParseAddr (s : string) : option (list Z) :=
  let l := list_ascii_of_string s in
  match firstSeparator l with
  | Some c => if isDot c then parseIPv4Fields l true "000"%char 0%Z 0%nat [] else None
  | None => None
  end.

Definition v4InV6Prefix : list Z := [0; 0; 0; 0; 0; 0; 0; 0; 0; 0; 255; 255]%Z.

(** [Addr.As16] of an IPv4 address. *)
Definition As16 (a : list Z) : list Z := v4InV6Prefix ++ a.

Definition ParseIP (s : string) : Net.IP :=
  match ParseAddr s with
  | Some a => As16 a
  | None => []
  end.

(** [dtoi]: [(n, i, ok)]. *)
Fixpoint dtoi_loop (s : list ascii) (n : Z) (i : nat) : Z * nat * bool :=
  match s with
  | c :: rest =>
      if isDigit c then
        let n' := (n * 10 + digitVal c)%Z in
        if (16777215 <=? n')%Z then (16777215%Z, i, false)
        else dtoi_loop rest n' (S i)
      else if Nat.eqb i 0 then (0%Z, 0%nat, false) else (n, i, true)
  | [] => if Nat.eqb i 0 then (0%Z, 0%nat, false) else (n, i, true)
  end.

Definition dtoi (s : list ascii) : Z * nat * bool := dtoi_loop s 0%Z 0%nat.

(** [strings.Cut(s, "/")]. *)
Fixpoint cutSlash (s : list ascii) : option (list ascii * list ascii) :=
  match s with
  | [] => None
  | c :: rest =>
      if Ascii.eqb c "/" then Some ([], rest)
      else match cutSlash rest with
           | Some (a, b) => Some (c :: a, b)
           | None => None
           end
  end.

(** [IP.Mask] of the 16-byte form of an IPv4 address with a 4-byte mask. *)
Definition maskIP (addr16 : list Z) (m : list Z) : list Z :=
  zip_with Z.land (drop 12 addr16) m.

Definition ParseCIDR (s : string) : option Net.IPNet :=
  match cutSlash (list_ascii_of_string s) with
  | None => None
  | Some (addr, mask) =>
      match ParseAddr (string_of_list_ascii addr) with
      | None => None
      | Some a =>
          let '(n, i, ok) := dtoi mask in
          if negb ok || negb (Nat.eqb i (length mask)) || (n <? 0)%Z || (32 <? n)%Z
          then None
          else
            let m := Net.CIDRMask n 32 in
            Some {| Net.IPNet_IP := maskIP (As16 a) m; Net.IPNet_Mask := m |}
      end
  end.

Definition toLowerASCII (c : ascii) : ascii :=
  let n := nat_of_ascii c in
  if (65 <=? n)%nat && (n <=? 90)%nat then ascii_of_nat (n + 32) else c.

(** [strings.EqualFold] on ASCII strings. *)
Definition EqualFold (s t : string) : bool :=
  bool_decide (map toLowerASCII (list_ascii_of_string s)
               = map toLowerASCII (list_ascii_of_string t)).

#[export] Instance lib : GoLib :=
  Build_GoLib EqualFold ParseIP ParseCIDR.

End IPv4Lib.


(** ** Target differ *)

(** [CountDiff] changes endpoints through pointers that the batches of
    [plan.Changes] share with its two indexes, so endpoints live in a store
    and a [*endpoint.Endpoint] is an index into it. An index outside the
    store stands for the nil pointer: dereferencing it panics. *)
Abbreviation ptr := nat.
Abbreviation store := (list Endpoint).

(** [plan.Changes]: the four batches, each a slice of pointers. The slices
    are lists here, each with an array of its own. *)
Record Changes := {
  Create : list ptr;
  UpdateOld : list ptr;
  UpdateNew : list ptr;
  Delete : list ptr;
}.

(** A new object: the store grows by one cell. *)
Definition alloc (h : store) (e : Endpoint) : store * ptr := (h ++ [e], length h).

(** The key of [endpointsToMap]: [v.DNSName+"_"+v.RecordType]. *)
Definition endpointKey (v : Endpoint) : string := DNSName v +:+ "_" +:+ RecordType v.

Definition endpointsToMap (h : store) (eps : list ptr) : option (gmap string ptr) :=
  foldlM (fun m v => e ← h !! v; Some (<[endpointKey e := v]> m)) ∅ eps.

Definition targetsToMap (targets : list string) : gmap string bool :=
  foldl (fun m v => <[v := true]> m) ∅ targets.

(** [m[k]] of a [map[string]bool]: a missing key reads as false. *)
Definition isSet (m : gmap string bool) (k : string) : bool := default false (m !! k).

Definition withTargets (ep : Endpoint) (targets : list string) : Endpoint :=
  {| DNSName := DNSName ep;
     Targets := targets;
     RecordType := RecordType ep;
     RecordTTL := RecordTTL ep;
     ProviderSpecific := ProviderSpecific ep |}.

(** [clone := ep.DeepCopy(); clone.Targets = endpoint.Targets{target}]. *)
Definition cloneWithSingleTarget (h : store) (ep : ptr) (target : string)
  : option (store * ptr) :=
  e ← h !! ep; Some (alloc h (withTargets e [target])).

(** The first element equal to [target] leaves the slice. *)
Fixpoint removeFirst (target : string) (targets : list string) : list string :=
  match targets with
  | [] => []
  | t :: rest => if String.eqb t target then rest else t :: removeFirst target rest
  end.

Definition removeTargetFromEndpoint (h : store) (ep : ptr) (target : string) : option store :=
  e ← h !! ep; Some (<[ep := withTargets e (removeFirst target (Targets e))]> h).

(** The first endpoint with the DNS name of [ep] leaves the slice. *)
Fixpoint removeFromEndpointSlice (h : store) (eps : list ptr) (ep : ptr)
  : option (list ptr) :=
  match eps with
  | [] => Some []
  | e :: rest =>
      e' ← h !! e;
      ep' ← h !! ep;
      if String.eqb (DNSName e') (DNSName ep') then Some rest
      else rest' ← removeFromEndpointSlice h rest ep; Some (e :: rest')
  end.

(** The [range] statements of [CountDiff] over maps. Each is run at most
    once for a given key [k], so a function from the statement and the
    keys of its map to the order they are visited in describes any run. *)
Inductive RangeSite :=
  | RangeUpdateOldMap
  | RangeUpdateNewMap
  | RangeOldTargets (k : string)
  | RangeNewTargets (k : string).

Definition RangeOrder := RangeSite → list string → list string.

Definition keys {V : Type} (m : gmap string V) : list string := (map_to_list m).*1.

Section Differ.
Variable order : RangeOrder.

(** The body of [for k, oldEp := range updateOldMap]. *)
Definition dropOld_step (updateNewMap : gmap string ptr)
    (st : store * Changes * gmap string ptr) (k : string)
  : option (store * Changes * gmap string ptr) :=
  let '(h, changes, updateOldMap) := st in
  match updateOldMap !! k with
  | None => Some st
  | Some oldEp =>
      match updateNewMap !! k with
      | Some _ => Some st
      | None =>
          updateOld ← removeFromEndpointSlice h (UpdateOld changes) oldEp;
          Some (h,
                {| Create := Create changes;
                   UpdateOld := updateOld;
                   UpdateNew := UpdateNew changes;
                   Delete := Delete changes ++ [oldEp] |},
                delete k updateOldMap)
      end
  end.

(** The body of [for target := range oldTargets]. *)
Definition deleteTarget_step (oldEp newEp : ptr) (newTargets : gmap string bool)
    (st : store * Changes) (target : string) : option (store * Changes) :=
  let '(h, changes) := st in
  if negb (isSet newTargets target) then
    '(h, clone) ← cloneWithSingleTarget h oldEp target;
    h ← removeTargetFromEndpoint h newEp target;
    Some (h,
          {| Create := Create changes;
             UpdateOld := UpdateOld changes;
             UpdateNew := UpdateNew changes;
             Delete := Delete changes ++ [clone] |})
  else Some st.

(** The body of [for target := range newTargets]. *)
Definition createTarget_step (newEp : ptr) (oldTargets : gmap string bool)
    (st : store * Changes) (target : string) : option (store * Changes) :=
  let '(h, changes) := st in
  if negb (isSet oldTargets target) then
    '(h, clone) ← cloneWithSingleTarget h newEp target;
    h ← removeTargetFromEndpoint h newEp target;
    Some (h,
          {| Create := Create changes ++ [clone];
             UpdateOld := UpdateOld changes;
             UpdateNew := UpdateNew changes;
             Delete := Delete changes |})
  else Some st.

(** The body of [for k, newEp := range updateNewMap]. *)
Definition diffNew_step (updateNewMap updateOldMap : gmap string ptr)
    (st : store * Changes) (k : string) : option (store * Changes) :=
  let '(h, changes) := st in
  match updateNewMap !! k with
  | None => Some st
  | Some newEp =>
      match updateOldMap !! k with
      | None =>
          updateNew ← removeFromEndpointSlice h (UpdateNew changes) newEp;
          Some (h,
                {| Create := Create changes ++ [newEp];
                   UpdateOld := UpdateOld changes;
                   UpdateNew := updateNew;
                   Delete := Delete changes |})
      | Some oldEp =>
          old ← h !! oldEp;
          new ← h !! newEp;
          let oldTargets := targetsToMap (Targets old) in
          let newTargets := targetsToMap (Targets new) in
          st ← foldlM (deleteTarget_step oldEp newEp newTargets) st
                 (order (RangeOldTargets k) (keys oldTargets));
          foldlM (createTarget_step newEp oldTargets) st
            (order (RangeNewTargets k) (keys newTargets))
      end
  end.

(** [CountDiff]: the store and the batches after the call. *)
Definition CountDiff (h : store) (changes : Changes) : option (store * Changes) :=
  updateNewMap ← endpointsToMap h (UpdateNew changes);
  updateOldMap ← endpointsToMap h (UpdateOld changes);
  '(h, changes, updateOldMap) ←
    foldlM (dropOld_step updateNewMap) (h, changes, updateOldMap)
      (order RangeUpdateOldMap (keys updateOldMap));
  foldlM (diffNew_step updateNewMap updateOldMap) (h, changes)
    (order RangeUpdateNewMap (keys updateNewMap)).

(** [newIBChanges]: one change for each target of each endpoint, on a deep
    copy of the endpoint that keeps that target alone. *)
Definition newIBChanges (h : store) (action : string) (eps : list ptr)
  : option (list infobloxChange) :=
  foldlM (fun changes ep =>
            e ← h !! ep;
            Some (changes ++
                  map (fun target =>
                         {| Action := action; Endpoint_ := withTargets e [target] |})
                      (Targets e)))
         [] eps.

(** [combinedChanges] of [ApplyChanges], the list it hands to
    [submitChanges]. *)
Definition combinedChanges (h : store) (changes : Changes)
  : option (list infobloxChange) :=
  '(h, changes) ← CountDiff h changes;
  creates ← newIBChanges h infobloxCreate (Create changes);
  updates ← newIBChanges h infobloxUpdate (UpdateNew changes);
  deletes ← newIBChanges h infobloxDelete (Delete changes);
  Some (creates ++ updates ++ deletes).

End Differ.


(** ** PTR marking *)

Definition withProviderSpecific (ep : Endpoint) (ps : list ProviderSpecificProperty)
  : Endpoint :=
  {| DNSName := DNSName ep;
     Targets := Targets ep;
     RecordType := RecordType ep;
     RecordTTL := RecordTTL ep;
     ProviderSpecific := ps |}.

Definition withRecordTTL (ep : Endpoint) (ttl : Z) : Endpoint :=
  {| DNSName := DNSName ep;
     Targets := Targets ep;
     RecordType := RecordType ep;
     RecordTTL := ttl;
     ProviderSpecific := ProviderSpecific ep |}.

(** [WithProviderSpecific] of [endpoint.Endpoint] in external-dns appends the
    property. Both calls below are made when no property has the name,
    where a variant that first looks for the name appends as well. *)
Definition WithProviderSpecific (ep : Endpoint) (key value : string) : Endpoint :=
  withProviderSpecific ep (ProviderSpecific ep ++ [{| Name := key; Value := value |}]).

(** The loop [for j := range endpoints[i].ProviderSpecific] of [Records]
    and of [AdjustEndpoints]: the properties after it, and [found]. *)
Fixpoint overwriteMarker (ps : list ProviderSpecificProperty) (found : bool)
  : list ProviderSpecificProperty * bool :=
  match ps with
  | [] => ([], found)
  | p :: rest =>
      if String.eqb (Name p) providerSpecificInfobloxPtrRecord then
        let '(rest', found') := overwriteMarker rest true in
        ({| Name := Name p; Value := "true" |} :: rest', found')
      else
        let '(rest', found') := overwriteMarker rest found in
        (p :: rest', found')
  end.

(** What both functions do to an endpoint they mark. *)
Definition markEndpoint (ep : Endpoint) : Endpoint :=
  let '(ps, found) := overwriteMarker (ProviderSpecific ep) false in
  let ep := withProviderSpecific ep ps in
  if negb found then WithProviderSpecific ep providerSpecificInfobloxPtrRecord "true"
  else ep.

(** [ptrRecordsMap] of [Records]. *)
Definition ptrRecordsMap (endpoints : list Endpoint) : gmap string bool :=
  foldl (fun m ptrRecord =>
           if negb (String.eqb (RecordType ptrRecord) RecordTypePTR) then m
           else <[DNSName ptrRecord := true]> m)
        ∅ endpoints.

(** The block [if p.config.CreatePTR { ... }] that ends [Records]. *)
Definition markPTRRecords (config : StartupConfig) (endpoints : list Endpoint)
  : list Endpoint :=
  if CreatePTR config then
    let m := ptrRecordsMap endpoints in
    map (fun ep =>
           if negb (String.eqb (RecordType ep) RecordTypeA) then ep
           else if isSet m (DNSName ep) then markEndpoint ep else ep)
        endpoints
  else endpoints.

Section Adjust.
(** [endpoint.TTL.IsConfigured] of external-dns. *)
Variable IsConfigured : Z → bool.
Variable config : StartupConfig.

(** [AdjustEndpoints]; its error result is always nil. *)
Definition AdjustEndpoints (endpoints : list Endpoint) : list Endpoint :=
  let endpoints :=
    map (fun ep =>
           if negb (IsConfigured (RecordTTL ep))
           then withRecordTTL ep (DefaultTTL config) else ep)
        endpoints in
  if negb (CreatePTR config) then endpoints
  else
    map (fun ep =>
           if String.eqb (RecordType ep) RecordTypeA then markEndpoint ep else ep)
        endpoints.

End Adjust.

(** ** Backend calls of [zones] and [Records] *)

(** Go errors: the not-found error of the Infoblox client, any other
    error, and [fmt.Errorf] around a cause. *)
Inductive error :=
  | NotFoundError (msg : string)
  | OtherError (msg : string)
  | Errorf (format : string) (args : list string) (cause : error).

Inductive result (A : Type) :=
  | Ok (a : A)
  | Err (e : error).
Arguments Ok {A} a.
Arguments Err {A} e.

(** [_, ok := err.( *ibclient.NotFoundError)]: the assertion is on the
    error itself, not on what it wraps. *)
Definition isNotFoundError (err : error) : bool :=
  match err with
  | NotFoundError _ => true
  | _ => false
  end.

(** What a call of [PagingGetObject] leaves: the slice behind [res] and
    the error. *)
Record Fetched (T : Type) := { res : list T; err : option error }.
Arguments res {T} f.
Arguments err {T} f.

(** The condition [err != nil && !isNotFoundError(err)] of every call
    site, with the error it holds for. *)
Definition fatal (err : option error) : option error :=
  match err with
  | Some e => if negb (isNotFoundError e) then Some e else None
  | None => None
  end.

Inductive RecordKind := KindA | KindHost | KindCNAME | KindTXT | KindPTR.

(** The records of a zone are read in this order. *)
Definition forwardKinds : list RecordKind := [KindA; KindHost; KindCNAME; KindTXT].

Definition kindName (k : RecordKind) : string :=
  match k with
  | KindA => "A"
  | KindHost => "host"
  | KindCNAME => "CNAME"
  | KindTXT => "TXT"
  | KindPTR => "PTR"
  end.

Section Backend.
(** The Infoblox objects [RecordA], [HostRecord], [RecordCNAME],
    [RecordTXT] and [RecordPTR]. *)
Variable Raw : Type.
(** The answer of the backend to the zone query of [zones]. *)
Variable listZones : Fetched ZoneAuth.
(** The answer to the query for the records of a kind in a zone; [nat]
    is the position of the zone in the loop of [Records]. *)
Variable fetchRecords : nat → RecordKind → string → Fetched Raw.
(** [ToAResponseMap(res).ToEndpoints()] and its siblings. *)
Variable ToEndpoints : RecordKind → list Raw → list Endpoint.
(** [p.domainFilter.Match]. *)
Variable domainFilterMatch : string → bool.
(** [rfc2317.CidrToInAddr]; an error is [None]. *)
Variable CidrToInAddr : string → option string.
(** [json.Unmarshal] into a map: the error, if any. *)
Variable jsonUnmarshal : string → option error.
Variable config : StartupConfig.

Definition deserializeEAs (extAttrJSON : string) : result unit :=
  if String.eqb extAttrJSON "" then Ok tt
  else match jsonUnmarshal extAttrJSON with
       | Some e => Err (Errorf "cannot process 'ext_attrs' field: %w" [] e)
       | None => Ok tt
       end.

Definition zones : result (list ZoneAuth) :=
  let r := listZones in
  match fatal (err r) with
  | Some e => Err e
  | None => Ok (List.filter (fun zone => domainFilterMatch (Fqdn zone)) (res r))
  end.

(** One of the four fetches of a zone in [Records]. *)
Definition fetchKind (i : nat) (zone : ZoneAuth) (kind : RecordKind)
    (endpoints : list Endpoint) : result (list Endpoint) :=
  let r := fetchRecords i kind (Fqdn zone) in
  match fatal (err r) with
  | Some e =>
      Err (Errorf ("could not fetch " +:+ kindName kind +:+ " records from zone '%s': %w")
             [Fqdn zone] e)
  | None => Ok (endpoints ++ ToEndpoints kind (res r))
  end.

Fixpoint fetchKinds (i : nat) (zone : ZoneAuth) (kinds : list RecordKind)
    (endpoints : list Endpoint) : result (list Endpoint) :=
  match kinds with
  | [] => Ok endpoints
  | kind :: rest =>
      match fetchKind i zone kind endpoints with
      | Err e => Err e
      | Ok endpoints => fetchKinds i zone rest endpoints
      end
  end.

(** The fetch of the PTR records of a zone, [if p.config.CreatePTR]. *)
Definition fetchPTR (i : nat) (zone : ZoneAuth) (endpoints : list Endpoint)
  : result (list Endpoint) :=
  if CreatePTR config then
    match CidrToInAddr (Fqdn zone) with
    | Some arpaZone =>
        let r := fetchRecords i KindPTR arpaZone in
        match fatal (err r) with
        | Some e =>
            Err (Errorf "could not fetch PTR records from zone '%s': %w" [Fqdn zone] e)
        | None => Ok (endpoints ++ ToEndpoints KindPTR (res r))
        end
    | None => Ok endpoints
    end
  else Ok endpoints.

(** The body of [for _, zone := range zones] of [Records]. *)
Definition fetchZone (i : nat) (zone : ZoneAuth) (endpoints : list Endpoint)
  : result (list Endpoint) :=
  match fetchKinds i zone forwardKinds endpoints with
  | Err e => Err e
  | Ok endpoints => fetchPTR i zone endpoints
  end.

Fixpoint fetchZones (i : nat) (zs : list ZoneAuth) (endpoints : list Endpoint)
  : result (list Endpoint) :=
  match zs with
  | [] => Ok endpoints
  | zone :: rest =>
      match fetchZone i zone endpoints with
      | Err e => Err e
      | Ok endpoints => fetchZones (S i) rest endpoints
      end
  end.

Definition Records : result (list Endpoint) :=
  match zones with
  | Err e => Err (Errorf "could not fetch zones: %w" [] e)
  | Ok zs =>
      match deserializeEAs (ExtAttrsJSON config) with
      | Err e => Err e
      | Ok _ =>
          match fetchZones 0 zs [] with
          | Err e => Err e
          | Ok endpoints => Ok (markPTRRecords config endpoints)
          end
      end
  end.

End Backend.


(** ** Vocabulary of the specification: the zone router *)

Section RouterSpec.
Context {lib : GoLib}.

(** A candidate of the forward lookup, in the words of the specification:
    the name equals the zone name case-insensitively, or the name ends with
    a dot followed by the zone name. *)
Definition zoneMatches (name : string) (zone : ZoneAuth) : bool :=
  EqualFold name (Fqdn zone) || HasSuffix name ("." +:+ Fqdn zone).

(** A candidate of the reverse lookup, in the words of the specification:
    the zone name parses as CIDR and its network contains the address. *)
Definition reverseCandidate (address : string) (zone : ZoneAuth) : bool :=
  match ParseCIDR (Fqdn zone) with
  | Some network => Net.Contains network (ParseIP address)
  | None => false
  end.

(** The prefix length of a reverse zone: the first result of [Mask.Size()]. *)
Definition prefixLength (zone : ZoneAuth) : Z :=
  match ParseCIDR (Fqdn zone) with
  | Some network => fst (Net.Size (Net.IPNet_Mask network))
  | None => 0%Z
  end.

(** The width of the address family of a reverse zone: the second result
    of [Mask.Size()], which [findReverseZone] names [mask]. *)
Definition maskBits (zone : ZoneAuth) : Z :=
  match ParseCIDR (Fqdn zone) with
  | Some network => snd (Net.Size (Net.IPNet_Mask network))
  | None => 0%Z
  end.

(** The widest address family among the candidates, 0 without one: the
    value of [maxMask] when the loop of [findReverseZone] ends. *)
Definition widest (name : string) (zones : list ZoneAuth) (start : Z) : Z :=
  foldl (fun m z => if reverseCandidate name z then Z.max m (maskBits z) else m)
        start zones.

End RouterSpec.

(** The last element of a list that satisfies [P]. *)
Definition lastWith {A : Type} (P : A → bool) (l : list A) : option A :=
  foldl (fun acc a => if P a then Some a else acc) None l.

(** ** Vocabulary of the specification: the PTR marker *)

Definition isMarker (p : ProviderSpecificProperty) : bool :=
  String.eqb (Name p) providerSpecificInfobloxPtrRecord.

(** The PTR marker of an endpoint: the value of its first property of the
    reserved name, none when it has no such property. *)
Definition ptrMarker (ep : Endpoint) : option string :=
  Value <$> List.find isMarker (ProviderSpecific ep).

(** How many properties of the reserved name the endpoint carries. *)
Definition markerCount (ep : Endpoint) : nat :=
  length (List.filter isMarker (ProviderSpecific ep)).

(** The two marking operations of a pass. *)
Inductive Marking := MarkOnRead | MarkOnAdjust.

Section Markings.
Variable IsConfigured : Z → bool.
Variable config : StartupConfig.

(** What [markPTRRecords] does to one endpoint, given [ptrRecordsMap]. *)
Definition markOnReadOne (m : gmap string bool) (ep : Endpoint) : Endpoint :=
  if negb (String.eqb (RecordType ep) RecordTypeA) then ep
  else if isSet m (DNSName ep) then markEndpoint ep else ep.

(** What [AdjustEndpoints] does to one endpoint. *)
Definition adjustOne (ep : Endpoint) : Endpoint :=
  let ep := if negb (IsConfigured (RecordTTL ep))
            then withRecordTTL ep (DefaultTTL config) else ep in
  if negb (CreatePTR config) then ep
  else if String.eqb (RecordType ep) RecordTypeA then markEndpoint ep else ep.

Definition runMarking (op : Marking) (endpoints : list Endpoint) : list Endpoint :=
  match op with
  | MarkOnRead => markPTRRecords config endpoints
  | MarkOnAdjust => AdjustEndpoints IsConfigured config endpoints
  end.

(** A pass: marking operations one after the other. *)
Definition runMarkings (ops : list Marking) (endpoints : list Endpoint) : list Endpoint :=
  foldl (fun endpoints op => runMarking op endpoints) endpoints ops.

End Markings.

(** What the markings of a pass may do to an endpoint: name, type and
    targets stay; a marker that is "true" stays "true"; and the number of
    marker properties stays, unless there was none and there is now one,
    with value "true". *)
Definition markerPreserved (ep ep' : Endpoint) : Prop :=
  DNSName ep' = DNSName ep
  ∧ RecordType ep' = RecordType ep
  ∧ Targets ep' = Targets ep
  ∧ (ptrMarker ep = Some "true" → ptrMarker ep' = Some "true")
  ∧ (markerCount ep' = markerCount ep
     ∨ (markerCount ep = 0%nat ∧ markerCount ep' = 1%nat ∧ ptrMarker ep' = Some "true")).

(** ** Vocabulary of the specification: backend failures *)

(** The answer of a call with a not-found failure taken out of it: the
    call is read as a success that leaves what the failed call left. *)
Definition forgive {T : Type} (f : Fetched T) : Fetched T :=
  {| res := res f; err := fatal (err f) |}.

(** Every answer of the backend with its not-found failure taken out. *)
Definition forgiveAll {T : Type} (fetch : nat → RecordKind → string → Fetched T)
  : nat → RecordKind → string → Fetched T :=
  fun i kind zone => forgive (fetch i kind zone).

(** ** Vocabulary of the specification: the target differ *)

(** A [range] visits every key of its map once. *)
Definition RangeOrderOK (order : RangeOrder) : Prop :=
  ∀ site l, order site l ≡ₚ l.

(** The order in which [keys] lists them. *)
Definition idOrder : RangeOrder := fun _ l => l.

(** An atomic change: the action and the endpoint with one target. *)
Definition atomic (action : string) (ep : Endpoint) (target : string) : infobloxChange :=
  {| Action := action; Endpoint_ := withTargets ep [target] |}.

(** The fan-out of a batch: one atomic change for each target of each
    endpoint, in the order of the batch. *)
Definition fanOut (action : string) (eps : list Endpoint) : list infobloxChange :=
  flat_map (fun ep => map (atomic action ep) (Targets ep)) eps.

(** The endpoint behind the pointer has the key [k]. *)
Definition hasKey (h : store) (k : string) (p : ptr) : bool :=
  bool_decide (endpointKey <$> h !! p = Some k).

(** Two pointers to equal endpoints (one pointer taken twice, or two
    copies of an endpoint). *)
Definition samePointee (h : store) (p q : ptr) : Prop :=
  ∃ e, h !! p = Some e ∧ h !! q = Some e.

(** Every pointer of the batches is a pointer into the store. *)
Definition validBatches (h : store) (c : Changes) : Prop :=
  Forall (fun p => (p < length h)%nat)
         (Create c ++ UpdateOld c ++ UpdateNew c ++ Delete c).

(** The state of the loops is in order for [n]: the store has at least
    [n] cells and the batches point into it. *)
Definition inOrder (n : nat) (st : store * Changes) : Prop :=
  (n ≤ length st.1)%nat ∧ validBatches st.1 st.2.

(** The store and the batches of one update of an endpoint from [old] to
    [new]: the create and delete batches are empty. *)
Definition pairStore (old new : Endpoint) : store := [old; new].
Definition pairChanges : Changes :=
  {| Create := []; UpdateOld := [0%nat]; UpdateNew := [1%nat]; Delete := [] |}.

(** The targets that stay in [targets] when the first occurrence of each
    of [removed] has left. *)
Definition removeFirsts (removed targets : list string) : list string :=
  foldl (fun l t => removeFirst t l) targets removed.

(** The targets [CountDiff] deletes and creates when the endpoint [old] is
    updated to [new], in the order the two inner loops visit them, and the
    targets the new endpoint keeps after the loops. *)
Definition deletedTargets (order : RangeOrder) (old new : Endpoint) : list string :=
  List.filter (fun t => negb (isSet (targetsToMap (Targets new)) t))
    (order (RangeOldTargets (endpointKey new)) (keys (targetsToMap (Targets old)))).

Definition createdTargets (order : RangeOrder) (old new : Endpoint) : list string :=
  List.filter (fun t => negb (isSet (targetsToMap (Targets old)) t))
    (order (RangeNewTargets (endpointKey new)) (keys (targetsToMap (Targets new)))).

Definition keptTargets (order : RangeOrder) (old new : Endpoint) : list string :=
  removeFirsts (createdTargets order old new) (Targets new).

(** The unchanged targets of the specification: the targets of both
    endpoints, each once, in the order of [new]. *)
Definition unchangedTargets (old new : Endpoint) : list string :=
  remove_dups (List.filter (fun t => bool_decide (t ∈ Targets old)) (Targets new)).

(** The precondition of the differ in the words of the specification: the
    key is unique within the update-old and within the update-new batch,
    and no endpoint that reaches the differ has a zero-length target list. *)
Definition uniqueKeys (h : store) (eps : list ptr) : bool :=
  bool_decide (NoDup (map (fun p => endpointKey <$> h !! p) eps)).

Definition hasTargets (h : store) (p : ptr) : bool :=
  match h !! p with
  | Some e => match Targets e with [] => false | _ => true end
  | None => true
  end.

Definition wellFormedInput (h : store) (c : Changes) : bool :=
  uniqueKeys h (UpdateOld c) && uniqueKeys h (UpdateNew c)
  && forallb (hasTargets h) (Create c ++ UpdateOld c ++ UpdateNew c ++ Delete c).

(** ** Data of the examples *)

Definition zone (fqdn : string) : ZoneAuth := {| Ref := ""; Fqdn := fqdn |}.

Definition exampleConfig : StartupConfig :=
  {| View := "default"; CreatePTR := true; DefaultTTL := 300; ExtAttrsJSON := "{}" |}.

Definition mkEndpoint (name type : string) (targets : list string) : Endpoint :=
  {| DNSName := name;
     Targets := targets;
     RecordType := type;
     RecordTTL := 0;
     ProviderSpecific := [] |}.

Definition mkChange (action name type target : string) : infobloxChange :=
  {| Action := action; Endpoint_ := mkEndpoint name type [target] |}.

(** The update of the scenario of the specification. *)
Definition scenarioOld : Endpoint :=
  mkEndpoint "a.example.com" RecordTypeA ["1.1.1.1"; "2.2.2.2"].
Definition scenarioNew : Endpoint :=
  mkEndpoint "a.example.com" RecordTypeA ["2.2.2.2"; "3.3.3.3"].

(** The batch of one endpoint taken as create, update-old and update-new
    batch. *)
Definition rediffEndpoint : Endpoint := mkEndpoint "a.example.com" RecordTypeA ["1.1.1.1"].
Definition rediffChanges : Changes :=
  {| Create := [0%nat]; UpdateOld := [0%nat]; UpdateNew := [0%nat]; Delete := [] |}.

(** An update whose old batch has two endpoints of one key, and an update
    to an endpoint without targets. *)
Definition collisionStore : store :=
  [mkEndpoint "a.example.com" RecordTypeA ["1.1.1.1"];
   mkEndpoint "a.example.com" RecordTypeA ["9.9.9.9"];
   mkEndpoint "a.example.com" RecordTypeA ["9.9.9.9"]].
Definition collisionChanges : Changes :=
  {| Create := []; UpdateOld := [0%nat; 1%nat]; UpdateNew := [2%nat]; Delete := [] |}.

Definition noTargetStore : store := [mkEndpoint "b.example.com" RecordTypeA []].
Definition noTargetChanges : Changes :=
  {| Create := []; UpdateOld := []; UpdateNew := [0%nat]; Delete := [] |}.


(** * Theorems *)

Open Scope nat_scope.

(** ** Zone router: forward lookup *)

Section RouterFacts.
Context {lib : GoLib}.

Lemma findZone_step_matches name acc z :
  findZone_step name acc z = if zoneMatches name z then longer acc z else acc.
Proof.
  unfold findZone_step, zoneMatches.
  destruct (HasSuffix name ("." +:+ Fqdn z)), (EqualFold name (Fqdn z)); reflexivity.
Qed.

Lemma longer_cases acc z :
  (acc = None ∧ longer acc z = Some z)
  ∨ (∃ a, acc = Some a ∧ String.length (Fqdn a) < String.length (Fqdn z)
          ∧ longer acc z = Some z)
  ∨ (∃ a, acc = Some a ∧ String.length (Fqdn z) ≤ String.length (Fqdn a)
          ∧ longer acc z = Some a).
Proof.
  destruct acc as [a|]; simpl; [|by left].
  destruct (Nat.ltb_spec (String.length (Fqdn a)) (String.length (Fqdn z))).
  - right; left. eauto.
  - right; right. eauto.
Qed.

Lemma findZone_fold_None name zones acc :
  foldl (findZone_step name) acc zones = None
  ↔ acc = None ∧ ∀ z, z ∈ zones → zoneMatches name z = false.
Proof.
  revert acc. induction zones as [|z zones IH]; intros acc; simpl.
  - split; [intros ->; split; [done|] | by intros [-> _]].
    intros z Hz. by apply elem_of_nil in Hz.
  - rewrite IH, findZone_step_matches. split.
    + intros [Hacc Hrest]. destruct (zoneMatches name z) eqn:Hm.
      * destruct (longer_cases acc z) as [[_ E]|[(a & _ & _ & E)|(a & _ & _ & E)]];
          rewrite E in Hacc; discriminate.
      * split; [done|]. intros z' [->|Hz']%elem_of_cons; auto.
    + intros [-> Hall]. rewrite (Hall z) by (apply elem_of_cons; auto).
      split; [done|]. intros z' Hz'. apply Hall, elem_of_cons; auto.
Qed.

Lemma findZone_fold_Some name zones acc r :
  foldl (findZone_step name) acc zones = Some r →
  (acc = Some r ∨ (r ∈ zones ∧ zoneMatches name r = true))
  ∧ (∀ a, acc = Some a → String.length (Fqdn a) ≤ String.length (Fqdn r))
  ∧ (∀ z, z ∈ zones → zoneMatches name z = true →
          String.length (Fqdn z) ≤ String.length (Fqdn r)).
Proof.
  revert acc. induction zones as [|z zones IH]; intros acc; simpl.
  - intros ->. split; [by left|]. split.
    + by intros a [= ->].
    + intros z Hz. by apply elem_of_nil in Hz.
  - rewrite findZone_step_matches. intros Hfold.
    destruct (IH _ Hfold) as (Hwho & Hacc & Hrest). clear IH Hfold.
    destruct (zoneMatches name z) eqn:Hm.
    + destruct (longer_cases acc z) as [[-> E]|[(a & -> & Hlt & E)|(a & -> & Hle & E)]];
        rewrite E in Hwho, Hacc.
      * split; [|split].
        -- right. destruct Hwho as [[= <-]|[Hin ?]]; [|split; [|done]].
           ++ split; [apply elem_of_cons; auto | done].
           ++ apply elem_of_cons; auto.
        -- intros ? [=].
        -- intros z' [->|Hz']%elem_of_cons Hz'm; [by apply Hacc | by apply Hrest].
      * split; [|split].
        -- right. destruct Hwho as [[= <-]|[Hin ?]]; [|split; [|done]].
           ++ split; [apply elem_of_cons; auto | done].
           ++ apply elem_of_cons; auto.
        -- intros ? [= <-]. specialize (Hacc z eq_refl). lia.
        -- intros z' [->|Hz']%elem_of_cons Hz'm; [by apply Hacc | by apply Hrest].
      * split; [|split].
        -- destruct Hwho as [?|[Hin ?]]; [by left|right]. split; [|done].
           apply elem_of_cons; auto.
        -- done.
        -- intros z' [->|Hz']%elem_of_cons Hz'm; [|by apply Hrest].
           specialize (Hacc a eq_refl). lia.
    + split; [|split].
      * destruct Hwho as [?|[Hin ?]]; [by left|right]. split; [|done].
        apply elem_of_cons; auto.
      * done.
      * intros z' [->|Hz']%elem_of_cons Hz'm; [congruence | by apply Hrest].
Qed.

(** Among zones of the greatest length the first one listed is returned. *)
Lemma findZone_first_longest name z zones :
  zoneMatches name z = true →
  (∀ z', z' ∈ zones → zoneMatches name z' = true →
         String.length (Fqdn z') ≤ String.length (Fqdn z)) →
  findZone (z :: zones) name = Some z.
Proof.
  intros Hm Hle. unfold findZone. simpl. rewrite findZone_step_matches, Hm. simpl.
  assert (∀ zs, (∀ z', z' ∈ zs → zoneMatches name z' = true →
                       String.length (Fqdn z') ≤ String.length (Fqdn z)) →
                foldl (findZone_step name) (Some z) zs = Some z) as Hkeep.
  { induction zs as [|y zs IH]; intros Hzs; [done|]. simpl.
    rewrite findZone_step_matches.
    destruct (zoneMatches name y) eqn:Hy.
    - simpl. pose proof Hzs as Hzs0. specialize (Hzs y (list_elem_of_here _ _) Hy).
      destruct (Nat.ltb_spec (String.length (Fqdn z)) (String.length (Fqdn y))); [lia|].
      apply IH. intros z' Hz'. apply Hzs0, elem_of_cons; auto.
    - apply IH. intros z' Hz'. apply Hzs, elem_of_cons; auto. }
  by apply Hkeep.
Qed.

End RouterFacts.

(** C4. [findZone] (FindForwardZone): a zone is a candidate exactly when the
    name equals the zone name case-insensitively or ends with a dot followed
    by the zone name; the result is a candidate of the zone list whose name
    is at least as long as that of every candidate; the result is none
    exactly when no zone is a candidate; and for the zones "example.com" and
    "a.example.com", listed in either order, the name "host.a.example.com"
    is routed to "a.example.com". *)
Theorem findZone_longest_match {lib : GoLib} (zones : list ZoneAuth) (name : string) :
  (∀ acc z, findZone_step name acc z
            = if zoneMatches name z then longer acc z else acc)
  ∧ (∀ r, findZone zones name = Some r →
          r ∈ zones ∧ zoneMatches name r = true
          ∧ ∀ z, z ∈ zones → zoneMatches name z = true →
                 String.length (Fqdn z) ≤ String.length (Fqdn r))
  ∧ (findZone zones name = None ↔ ∀ z, z ∈ zones → zoneMatches name z = false)
  ∧ ((∃ z, z ∈ zones ∧ zoneMatches name z = true) → ∃ r, findZone zones name = Some r)
  ∧ findZone [zone "example.com"; zone "a.example.com"] "host.a.example.com"
    = Some (zone "a.example.com")
  ∧ findZone [zone "a.example.com"; zone "example.com"] "host.a.example.com"
    = Some (zone "a.example.com").
Proof.
  split; [apply findZone_step_matches|].
  split.
  { intros r Hr. apply findZone_fold_Some in Hr as ([?|[? ?]] & _ & Hmax); [discriminate|auto]. }
  split.
  { unfold findZone. rewrite findZone_fold_None. split; [by intros [_ ?] | by intros ?]. }
  split.
  { intros (z & Hz & Hm). destruct (findZone zones name) as [r|] eqn:E; [eauto|].
    unfold findZone in E. apply findZone_fold_None in E as [_ E].
    rewrite (E z Hz) in Hm. discriminate. }
  split; reflexivity.
Qed.


(** ** Zone router: reverse lookup *)

Lemma lastWith_acc {A : Type} (P : A → bool) (l : list A) (acc : option A) :
  foldl (fun acc a => if P a then Some a else acc) acc l
  = match lastWith P l with Some x => Some x | None => acc end.
Proof.
  unfold lastWith. revert acc. induction l as [|a l IH]; intros acc; simpl; [done|].
  rewrite IH. rewrite (IH (if P a then Some a else None)).
  destruct (foldl _ None l); [done|]. by destruct (P a).
Qed.

Lemma lastWith_cons {A : Type} (P : A → bool) (a : A) (l : list A) :
  lastWith P (a :: l)
  = match lastWith P l with Some x => Some x | None => if P a then Some a else None end.
Proof. unfold lastWith at 1. simpl. apply lastWith_acc. Qed.

Lemma lastWith_None {A : Type} (P : A → bool) (l : list A) :
  lastWith P l = None ↔ ∀ a, a ∈ l → P a = false.
Proof.
  induction l as [|a l IH].
  - split; [|done]. intros _ a Ha. by apply elem_of_nil in Ha.
  - rewrite lastWith_cons. split.
    + destruct (lastWith P l); [done|]. destruct (P a) eqn:E; [done|].
      intros _ a' [->|Ha']%elem_of_cons; [done|]. by apply IH.
    + intros Hall.
      assert (lastWith P l = None) as ->.
      { apply IH. intros a' Ha'. apply Hall, elem_of_cons; auto. }
      rewrite (Hall a); [done|]. apply elem_of_cons; auto.
Qed.

Lemma lastWith_ext {A : Type} (P Q : A → bool) (l : list A) :
  (∀ a, a ∈ l → P a = Q a) → lastWith P l = lastWith Q l.
Proof.
  induction l as [|a l IH]; intros Hext; [done|].
  rewrite !lastWith_cons, IH, (Hext a).
  - done.
  - apply elem_of_cons; auto.
  - intros a' Ha'. apply Hext, elem_of_cons; auto.
Qed.

Section ReverseFacts.
Context {lib : GoLib}.

Lemma widest_cons name z zones start :
  widest name (z :: zones) start
  = widest name zones
      (if reverseCandidate name z then Z.max start (maskBits z) else start).
Proof. reflexivity. Qed.

Lemma findReverseZone_step_candidate name networks maxMask z :
  findReverseZone_step (ParseIP name) (networks, maxMask) z
  = if reverseCandidate name z
    then (<[maskBits z := z]> networks, Z.max maxMask (maskBits z))
    else (networks, maxMask).
Proof.
  unfold findReverseZone_step, reverseCandidate, maskBits.
  destruct (ParseCIDR (Fqdn z)) as [n|]; [|done].
  destruct (Net.Contains n (ParseIP name)); [|done].
  f_equal. destruct (Z.ltb_spec maxMask (snd (Net.Size (Net.IPNet_Mask n)))); lia.
Qed.

Lemma findReverseZone_fold name zones networks maxMask :
  ∃ networks',
    foldl (findReverseZone_step (ParseIP name)) (networks, maxMask) zones
    = (networks', widest name zones maxMask)
    ∧ ∀ b, networks' !! b
           = match lastWith (fun z => reverseCandidate name z && Z.eqb (maskBits z) b) zones
             with Some z => Some z | None => networks !! b end.
Proof.
  revert networks maxMask. induction zones as [|z zones IH]; intros networks maxMask.
  - exists networks. done.
  - cbn [foldl]. rewrite findReverseZone_step_candidate, widest_cons.
    destruct (reverseCandidate name z) eqn:Hc.
    + destruct (IH (<[maskBits z := z]> networks) (Z.max maxMask (maskBits z)))
        as (networks' & -> & Hlook).
      exists networks'. split; [done|]. intros b. rewrite Hlook, lastWith_cons.
      destruct (lastWith _ zones); [done|]. rewrite Hc. simpl.
      destruct (Z.eqb_spec (maskBits z) b) as [->|Hne].
      * by rewrite lookup_insert_eq.
      * by rewrite lookup_insert_ne.
    + destruct (IH networks maxMask) as (networks' & -> & Hlook).
      exists networks'. split; [done|]. intros b. rewrite Hlook, lastWith_cons, Hc.
      by destruct (lastWith _ zones).
Qed.

(** What [findReverseZone] returns: of the candidates whose address
    family is the widest, the one listed last. The prefix length of the
    candidates plays no part. *)
Lemma findReverseZone_last_of_widest zones name :
  findReverseZone zones name
  = lastWith (fun z => reverseCandidate name z
                       && Z.eqb (maskBits z) (widest name zones 0))
             zones.
Proof.
  unfold findReverseZone.
  destruct (findReverseZone_fold name zones ∅ 0) as (networks' & -> & Hlook).
  rewrite Hlook, lookup_empty. by destruct (lastWith _ zones).
Qed.

Lemma widest_uniform name zones b start :
  (∀ z, z ∈ zones → reverseCandidate name z = true → maskBits z = b) →
  widest name zones start = start
  ∨ widest name zones start = Z.max start b.
Proof.
  revert start. induction zones as [|z zones IH]; intros start Hb; [by left|].
  rewrite widest_cons.
  assert (∀ z', z' ∈ zones → reverseCandidate name z' = true → maskBits z' = b) as Hb'.
  { intros z' Hz'. apply Hb, elem_of_cons; auto. }
  destruct (reverseCandidate name z) eqn:Hc.
  - rewrite (Hb z) by (done || apply elem_of_cons; auto).
    destruct (IH (Z.max start b) Hb') as [->| ->]; right; lia.
  - by apply IH.
Qed.

Lemma widest_candidate name zones b start z :
  (∀ z, z ∈ zones → reverseCandidate name z = true → maskBits z = b) →
  z ∈ zones → reverseCandidate name z = true →
  widest name zones start = Z.max start b.
Proof.
  revert start. induction zones as [|y zones IH]; intros start Hb Hz Hc.
  - by apply elem_of_nil in Hz.
  - rewrite widest_cons.
    assert (∀ z', z' ∈ zones → reverseCandidate name z' = true → maskBits z' = b) as Hb'.
    { intros z' Hz'. apply Hb, elem_of_cons; auto. }
    apply elem_of_cons in Hz as [<-|Hz].
    + rewrite Hc, (Hb z) by (done || apply elem_of_cons; auto).
      destruct (widest_uniform name zones b (Z.max start b) Hb') as [->| ->]; lia.
    + destruct (reverseCandidate name y) eqn:Hy.
      * rewrite (Hb y) by (done || apply elem_of_cons; auto).
        rewrite (IH _ Hb' Hz Hc). lia.
      * by apply IH.
Qed.

(** With reverse zones of one address family (IPv4 zones have 32 bits),
    the candidate listed last is returned, whatever its prefix length. *)
Lemma findReverseZone_last_listed zones name b :
  (0 < b)%Z →
  (∀ z, z ∈ zones → reverseCandidate name z = true → maskBits z = b) →
  findReverseZone zones name = lastWith (reverseCandidate name) zones.
Proof.
  intros Hpos Hb. rewrite findReverseZone_last_of_widest.
  apply lastWith_ext. intros z Hz.
  destruct (reverseCandidate name z) eqn:Hc; [|done]. simpl.
  rewrite (widest_candidate name zones b 0 z Hb Hz Hc), (Hb z Hz Hc).
  apply Z.eqb_eq. lia.
Qed.

Lemma findReverseZone_None zones name :
  (∀ z, z ∈ zones → reverseCandidate name z = false) →
  findReverseZone zones name = None.
Proof.
  intros Hnone. rewrite findReverseZone_last_of_widest. apply lastWith_None.
  intros z Hz. by rewrite (Hnone z Hz).
Qed.

End ReverseFacts.

(** C1. [findReverseZone] at the zone list "10.1.0.0/16", "10.0.0.0/8" and
    the address "10.1.2.3": both zones are candidates, their prefix lengths
    are 16 and 8, and the zone of prefix length 8 is returned, because the
    key [mask] of [networks] is the second result of [Mask.Size()], 32 for
    both zones; with the two zones listed the other way round the zone of
    prefix length 16 is returned. *)
Theorem findReverseZone_order_decides :
  reverseCandidate (lib := IPv4Lib.lib) "10.1.2.3" (zone "10.1.0.0/16") = true
  ∧ reverseCandidate (lib := IPv4Lib.lib) "10.1.2.3" (zone "10.0.0.0/8") = true
  ∧ prefixLength (lib := IPv4Lib.lib) (zone "10.1.0.0/16") = 16%Z
  ∧ prefixLength (lib := IPv4Lib.lib) (zone "10.0.0.0/8") = 8%Z
  ∧ maskBits (lib := IPv4Lib.lib) (zone "10.1.0.0/16") = 32%Z
  ∧ maskBits (lib := IPv4Lib.lib) (zone "10.0.0.0/8") = 32%Z
  ∧ findReverseZone (lib := IPv4Lib.lib) [zone "10.1.0.0/16"; zone "10.0.0.0/8"] "10.1.2.3"
    = Some (zone "10.0.0.0/8")
  ∧ findReverseZone (lib := IPv4Lib.lib) [zone "10.0.0.0/8"; zone "10.1.0.0/16"] "10.1.2.3"
    = Some (zone "10.1.0.0/16").
Proof. repeat split; vm_compute; reflexivity. Qed.


(** ** Change batcher *)

Lemma foldlM_app {A B : Type} (f : B → A → option B) (b : B) (l1 l2 : list A) :
  foldlM f b (l1 ++ l2) = b' ← foldlM f b l1; foldlM f b' l2.
Proof.
  revert b. induction l1 as [|a l1 IH]; intros b; simpl; [done|].
  destruct (f b a) as [b'|]; simpl; [apply IH | done].
Qed.

Lemma foldlM_total {A B : Type} (f : B → A → option B) (b : B) (l : list A) :
  (∀ b a, a ∈ l → is_Some (f b a)) → is_Some (foldlM f b l).
Proof.
  revert b. induction l as [|a l IH]; intros b Hf; simpl; [by eexists|].
  destruct (Hf b a) as [b' ->]; [apply elem_of_cons; auto|]. simpl.
  apply IH. intros b0 a0 Ha0. apply Hf, elem_of_cons; auto.
Qed.

Lemma lookup_appendChange k c (changes : gmap string (list infobloxChange)) k' :
  appendChange k c changes !! k'
  = if decide (k = k') then Some (default [] (changes !! k) ++ [c]) else changes !! k'.
Proof. unfold appendChange. apply lookup_insert. Qed.

(** What a list of the batch holds stays in it when a change is added. *)
Lemma appendChange_keeps k c (changes : gmap string (list infobloxChange)) k' l x :
  changes !! k' = Some l → x ∈ l →
  ∃ l', appendChange k c changes !! k' = Some l' ∧ x ∈ l'.
Proof.
  intros Hl Hx. rewrite lookup_appendChange. case_decide as Hk.
  - subst k'. rewrite Hl. simpl. eexists; split; [done|].
    apply elem_of_app; auto.
  - eauto.
Qed.

Lemma appendChange_holds k c (changes : gmap string (list infobloxChange)) :
  ∃ l, appendChange k c changes !! k = Some l ∧ c ∈ l.
Proof.
  rewrite lookup_appendChange. case_decide; [|done].
  eexists; split; [done|]. apply elem_of_app. right. apply list_elem_of_here.
Qed.

Section BatcherFacts.
Context {lib : GoLib}.
Variable config : StartupConfig.

Lemma routeChange_unrouted zones changes c :
  findZone zones (DNSName (Endpoint_ c)) = None →
  routeChange config zones changes c = Some changes.
Proof. intros Hz. unfold routeChange. by rewrite Hz. Qed.

Lemma routeChange_forward_only zones changes c z target :
  findZone zones (DNSName (Endpoint_ c)) = Some z → Fqdn z ≠ "" →
  Targets (Endpoint_ c) !! 0 = Some target →
  findReverseZone zones target = None →
  routeChange config zones changes c = Some (appendChange (Fqdn z) c changes).
Proof.
  intros Hz Hne Ht Hr. unfold routeChange. rewrite Hz.
  destruct (String.eqb_spec (Fqdn z) ""); [done|].
  destruct (CreatePTR config && _); [|done].
  rewrite Ht. simpl. by rewrite Hr.
Qed.

Lemma routeChange_with_companion zones changes c z rz target :
  CreatePTR config = true → RecordType (Endpoint_ c) = RecordTypeA →
  findZone zones (DNSName (Endpoint_ c)) = Some z → Fqdn z ≠ "" →
  Targets (Endpoint_ c) !! 0 = Some target →
  findReverseZone zones target = Some rz →
  routeChange config zones changes c
  = Some (appendChange (Fqdn rz)
            {| Action := Action c; Endpoint_ := ptrCopy (Endpoint_ c) |}
            (appendChange (Fqdn z) c changes)).
Proof.
  intros Hptr Ha Hz Hne Ht Hr. unfold routeChange. rewrite Hz.
  destruct (String.eqb_spec (Fqdn z) ""); [done|].
  rewrite Hptr, Ha, Ht. simpl. by rewrite Hr.
Qed.

Lemma routeChange_total zones changes c :
  Targets (Endpoint_ c) ≠ [] → is_Some (routeChange config zones changes c).
Proof.
  intros Ht. unfold routeChange.
  destruct (findZone zones _) as [z|]; [|by eexists].
  destruct (String.eqb (Fqdn z) ""); [by eexists|].
  destruct (CreatePTR config && _); [|by eexists].
  destruct (Targets (Endpoint_ c)) as [|t ts]; [done|]. simpl.
  destruct (findReverseZone zones t); by eexists.
Qed.

Lemma routeChange_keeps zones changes changes' c k l x :
  routeChange config zones changes c = Some changes' →
  changes !! k = Some l → x ∈ l →
  ∃ l', changes' !! k = Some l' ∧ x ∈ l'.
Proof.
  unfold routeChange. intros Hr Hl Hx.
  destruct (findZone zones _) as [z|]; [|injection Hr as <-; eauto].
  destruct (String.eqb (Fqdn z) ""); [injection Hr as <-; eauto|].
  destruct (appendChange_keeps (Fqdn z) c changes k l x Hl Hx) as (l1 & Hl1 & Hx1).
  destruct (CreatePTR config && _); [|injection Hr as <-; eauto].
  destruct (Targets (Endpoint_ c) !! 0) as [t|]; [|done]. simpl in Hr.
  destruct (findReverseZone zones t) as [rz|]; injection Hr as <-; [|eauto].
  by eapply appendChange_keeps.
Qed.

Lemma routeAll_keeps zones cs changes changes' k l x :
  foldlM (routeChange config zones) changes cs = Some changes' →
  changes !! k = Some l → x ∈ l →
  ∃ l', changes' !! k = Some l' ∧ x ∈ l'.
Proof.
  revert changes l. induction cs as [|c cs IH]; intros changes l; simpl.
  - intros [= <-]. eauto.
  - destruct (routeChange config zones changes c) as [m|] eqn:Hr; [|done]. simpl.
    intros Hfold Hl Hx.
    destruct (routeChange_keeps _ _ _ _ _ _ _ Hr Hl Hx) as (l1 & Hl1 & Hx1).
    by eapply IH.
Qed.

Lemma ChangesByZone_split zones l1 c l2 :
  ChangesByZone config zones (l1 ++ c :: l2)
  = before ← ChangesByZone config zones l1;
    after ← routeChange config zones before c;
    foldlM (routeChange config zones) after l2.
Proof. unfold ChangesByZone. by rewrite foldlM_app. Qed.

Lemma ChangesByZone_drop zones l1 c l2 :
  findZone zones (DNSName (Endpoint_ c)) = None →
  ChangesByZone config zones (l1 ++ c :: l2) = ChangesByZone config zones (l1 ++ l2).
Proof.
  intros Hz. rewrite ChangesByZone_split. unfold ChangesByZone. rewrite foldlM_app.
  destruct (foldlM _ _ l1) as [before|]; [|done]. simpl.
  by rewrite routeChange_unrouted.
Qed.

End BatcherFacts.

(** C10. A change whose DNS name matches no forward zone contributes
    nothing to the batch: the loop body of [ChangesByZone] returns the map
    as it got it, whatever the configuration, the record type and the
    reverse zones are, so no PTR change is derived from it, and the batch
    is the one of the change list without that change. *)
Theorem unrouted_change_contributes_nothing {lib : GoLib}
    (config : StartupConfig) (zones : list ZoneAuth)
    (l1 : list infobloxChange) (c : infobloxChange) (l2 : list infobloxChange) :
  findZone zones (DNSName (Endpoint_ c)) = None →
  (∀ changes, routeChange config zones changes c = Some changes)
  ∧ ChangesByZone config zones (l1 ++ c :: l2) = ChangesByZone config zones (l1 ++ l2).
Proof.
  intros Hz. split.
  - intros changes. by apply routeChange_unrouted.
  - by apply ChangesByZone_drop.
Qed.

(** Reverse-record generation is on, the change is of type A and the
    reverse zone "10.0.0.0/8" contains its target, yet the change, whose
    name is in no forward zone, leaves no trace in the batch. *)
Lemma unrouted_change_contributes_nothing_witness :
  findReverseZone (lib := IPv4Lib.lib) [zone "example.com"; zone "10.0.0.0/8"] "10.1.2.3"
  = Some (zone "10.0.0.0/8")
  ∧ ChangesByZone (lib := IPv4Lib.lib) exampleConfig [zone "example.com"; zone "10.0.0.0/8"]
      ([] ++ mkChange infobloxCreate "host.other.org" RecordTypeA "10.1.2.3" :: [])
    = ChangesByZone (lib := IPv4Lib.lib) exampleConfig [zone "example.com"; zone "10.0.0.0/8"]
        ([] ++ []).
Proof.
  split; [vm_compute; reflexivity|].
  apply (unrouted_change_contributes_nothing (lib := IPv4Lib.lib)).
  vm_compute; reflexivity.
Defined.

(** C6. Batching does not fail on unroutable changes. For change lists
    whose changes carry a target (atomic changes carry exactly one):
    [ChangesByZone] returns a batch; a change whose name matches no forward
    zone is dropped, the batch being the one of the list without it; for a
    change routed to a forward zone whose target is in no reverse zone only
    the forward change is added to the batch and the rest of the list is
    processed as before. With the zone list "example.com", reverse-record
    generation on, and an A-record create for "host.example.com" with
    target "5.5.5.5", the batch holds the forward Create change and nothing
    else. *)
Theorem unroutable_changes_are_dropped :
  (∀ (L : GoLib) (config : StartupConfig) (zones : list ZoneAuth)
     (changeSets : list infobloxChange),
      (∀ c, c ∈ changeSets → Targets (Endpoint_ c) ≠ []) →
      (∃ changes, ChangesByZone config zones changeSets = Some changes)
      ∧ (∀ l1 c l2,
            changeSets = l1 ++ c :: l2 →
            findZone zones (DNSName (Endpoint_ c)) = None →
            ChangesByZone config zones changeSets
            = ChangesByZone config zones (l1 ++ l2))
      ∧ (∀ l1 c l2 z target,
            changeSets = l1 ++ c :: l2 →
            findZone zones (DNSName (Endpoint_ c)) = Some z → Fqdn z ≠ "" →
            Targets (Endpoint_ c) !! 0 = Some target →
            (∀ rz, rz ∈ zones → reverseCandidate target rz = false) →
            ∃ before,
              ChangesByZone config zones l1 = Some before
              ∧ ChangesByZone config zones changeSets
                = foldlM (routeChange config zones)
                    (appendChange (Fqdn z) c before) l2))
  ∧ ChangesByZone (lib := IPv4Lib.lib) exampleConfig [zone "example.com"]
      [mkChange infobloxCreate "host.example.com" RecordTypeA "5.5.5.5"]
    = Some {[ "example.com"
              := [mkChange infobloxCreate "host.example.com" RecordTypeA "5.5.5.5"] ]}.
Proof.
  split; [|vm_compute; reflexivity].
  intros L config zones changeSets Htargets. split; [|split].
  - apply foldlM_total. intros changes c Hc. by apply routeChange_total, Htargets.
  - intros l1 c l2 -> Hz. by apply ChangesByZone_drop.
  - intros l1 c l2 z target -> Hz Hne Ht Hnone.
    assert (is_Some (ChangesByZone config zones l1)) as [before Hbefore].
    { apply foldlM_total. intros changes c' Hc'. apply routeChange_total, Htargets.
      apply elem_of_app; auto. }
    exists before. split; [done|].
    rewrite ChangesByZone_split, Hbefore. simpl.
    rewrite (routeChange_forward_only config zones before c z target Hz Hne Ht); [done|].
    by apply findReverseZone_None.
Qed.

(** The scenario as an instance of the general statement: the change list
    holds a target, the batch exists, and it is what the rest of the list
    (nothing) makes of the seeded batch with the forward change added. *)
Lemma unroutable_changes_are_dropped_witness :
  (∀ c, c ∈ [mkChange infobloxCreate "host.example.com" RecordTypeA "5.5.5.5"] →
        Targets (Endpoint_ c) ≠ [])
  ∧ (∃ changes,
       ChangesByZone (lib := IPv4Lib.lib) exampleConfig [zone "example.com"]
         [mkChange infobloxCreate "host.example.com" RecordTypeA "5.5.5.5"]
       = Some changes)
  ∧ (∃ before,
       ChangesByZone (lib := IPv4Lib.lib) exampleConfig [zone "example.com"] [] = Some before
       ∧ ChangesByZone (lib := IPv4Lib.lib) exampleConfig [zone "example.com"]
           [mkChange infobloxCreate "host.example.com" RecordTypeA "5.5.5.5"]
         = foldlM (routeChange (lib := IPv4Lib.lib) exampleConfig [zone "example.com"])
             (appendChange "example.com"
                (mkChange infobloxCreate "host.example.com" RecordTypeA "5.5.5.5") before)
             []).
Proof.
  assert (∀ c, c ∈ [mkChange infobloxCreate "host.example.com" RecordTypeA "5.5.5.5"] →
               Targets (Endpoint_ c) ≠ []) as Htargets.
  { intros c Hc. apply list_elem_of_singleton in Hc. subst c. discriminate. }
  destruct (proj1 unroutable_changes_are_dropped IPv4Lib.lib exampleConfig
              [zone "example.com"] _ Htargets) as (Hsome & _ & Hreverse).
  split; [exact Htargets|]. split; [exact Hsome|].
  apply (Hreverse [] _ [] (zone "example.com") "5.5.5.5").
  - reflexivity.
  - vm_compute; reflexivity.
  - discriminate.
  - reflexivity.
  - intros rz Hrz. apply list_elem_of_singleton in Hrz. subst rz.
    vm_compute; reflexivity.
Defined.

(** C3, as the code has it. With reverse-record generation on, for a
    change of type A that is routed to a forward zone and for whose single
    target a reverse zone is found, the loop body of [ChangesByZone] adds
    the change to the list of the forward zone and a companion to the list
    of the reverse zone; the companion is in the batch under the reverse
    zone, and it has the action of the change, record type PTR, and the DNS
    name, the targets, the TTL and the provider-specific properties of the
    change: name and target are not exchanged. *)
Theorem ptr_companion_is_a_retyped_copy {lib : GoLib}
    (config : StartupConfig) (zones : list ZoneAuth)
    (changeSets : list infobloxChange) (c : infobloxChange)
    (z rz : ZoneAuth) (target : string)
    (changes : gmap string (list infobloxChange)) :
  CreatePTR config = true →
  RecordType (Endpoint_ c) = RecordTypeA →
  Targets (Endpoint_ c) = [target] →
  findZone zones (DNSName (Endpoint_ c)) = Some z → Fqdn z ≠ "" →
  findReverseZone zones target = Some rz →
  c ∈ changeSets →
  ChangesByZone config zones changeSets = Some changes →
  ∃ companion,
    (∀ m, routeChange config zones m c
          = Some (appendChange (Fqdn rz) companion (appendChange (Fqdn z) c m)))
    ∧ (∃ l, changes !! Fqdn rz = Some l ∧ companion ∈ l)
    ∧ Action companion = Action c
    ∧ RecordType (Endpoint_ companion) = RecordTypePTR
    ∧ DNSName (Endpoint_ companion) = DNSName (Endpoint_ c)
    ∧ Targets (Endpoint_ companion) = [target]
    ∧ RecordTTL (Endpoint_ companion) = RecordTTL (Endpoint_ c)
    ∧ ProviderSpecific (Endpoint_ companion) = ProviderSpecific (Endpoint_ c).
Proof.
  intros Hptr Ha Ht Hz Hne Hrz Hin Hbatch.
  exists {| Action := Action c; Endpoint_ := ptrCopy (Endpoint_ c) |}.
  assert (Targets (Endpoint_ c) !! 0 = Some target) as Ht0 by (by rewrite Ht).
  split; [|split]; [| |by rewrite <- Ht].
  - intros m. by apply (routeChange_with_companion config zones m c z rz target).
  - apply list_elem_of_split in Hin as (l1 & l2 & ->).
    rewrite ChangesByZone_split in Hbatch.
    destruct (ChangesByZone config zones l1) as [before|]; [|done]. simpl in Hbatch.
    rewrite (routeChange_with_companion config zones before c z rz target) in Hbatch
      by done.
    simpl in Hbatch.
    destruct (appendChange_holds (Fqdn rz)
                {| Action := Action c; Endpoint_ := ptrCopy (Endpoint_ c) |}
                (appendChange (Fqdn z) c before)) as (l & Hl & Hx).
    by eapply routeAll_keeps.
Qed.

Lemma ptr_companion_is_a_retyped_copy_witness :
  ∃ companion,
    (∃ l, ({[ "10.0.0.0/8"
             := [{| Action := infobloxCreate;
                    Endpoint_ := mkEndpoint "host.example.com" RecordTypePTR ["10.1.2.3"] |}];
              "example.com"
             := [mkChange infobloxCreate "host.example.com" RecordTypeA "10.1.2.3"] ]}
           : gmap string (list infobloxChange)) !! "10.0.0.0/8" = Some l
          ∧ companion ∈ l)
    ∧ DNSName (Endpoint_ companion) = "host.example.com"
    ∧ Targets (Endpoint_ companion) = ["10.1.2.3"].
Proof.
  destruct (ptr_companion_is_a_retyped_copy (lib := IPv4Lib.lib) exampleConfig
              [zone "example.com"; zone "10.0.0.0/8"]
              [mkChange infobloxCreate "host.example.com" RecordTypeA "10.1.2.3"]
              (mkChange infobloxCreate "host.example.com" RecordTypeA "10.1.2.3")
              (zone "example.com") (zone "10.0.0.0/8") "10.1.2.3"
              {[ "10.0.0.0/8"
                 := [{| Action := infobloxCreate;
                        Endpoint_ := mkEndpoint "host.example.com" RecordTypePTR
                                       ["10.1.2.3"] |}];
                 "example.com"
                 := [mkChange infobloxCreate "host.example.com" RecordTypeA "10.1.2.3"] ]})
    as (companion & _ & Hin & _ & _ & Hname & Htargets & _).
  - reflexivity.
  - reflexivity.
  - reflexivity.
  - vm_compute; reflexivity.
  - discriminate.
  - vm_compute; reflexivity.
  - apply list_elem_of_here.
  - vm_compute; reflexivity.
  - exists companion. split; [exact Hin|]. split; [exact Hname | exact Htargets].
Defined.

(** C3 as stated fails: for the A-record create of "host.example.com" with
    target "10.1.2.3", the companion in the list of the reverse zone
    "10.0.0.0/8" has the DNS name "host.example.com", not the target
    address, and the target "10.1.2.3", not the DNS name. *)
Lemma ptr_companion_name_not_target :
  ChangesByZone (lib := IPv4Lib.lib) exampleConfig [zone "example.com"; zone "10.0.0.0/8"]
    [mkChange infobloxCreate "host.example.com" RecordTypeA "10.1.2.3"]
  = Some {[ "10.0.0.0/8"
            := [{| Action := infobloxCreate;
                   Endpoint_ := mkEndpoint "host.example.com" RecordTypePTR ["10.1.2.3"] |}];
            "example.com"
            := [mkChange infobloxCreate "host.example.com" RecordTypeA "10.1.2.3"] ]}
  ∧ "host.example.com" ≠ "10.1.2.3".
Proof. split; [vm_compute; reflexivity | discriminate]. Qed.


(** ** PTR marking *)

(** The loop over the properties as a map, with the flag it leaves. *)
Lemma overwriteMarker_map ps found :
  overwriteMarker ps found
  = (map (fun p => if isMarker p then {| Name := Name p; Value := "true" |} else p) ps,
     found || existsb isMarker ps).
Proof.
  revert found. induction ps as [|p ps IH]; intros found; simpl.
  - by rewrite orb_false_r.
  - unfold isMarker at 1 3. destruct (String.eqb (Name p) _); rewrite IH; simpl.
    + by rewrite orb_true_r.
    + done.
Qed.

(** The properties of a marked endpoint, by whether it carried a marker. *)
Lemma markEndpoint_properties ep :
  ProviderSpecific (markEndpoint ep)
  = if existsb isMarker (ProviderSpecific ep)
    then map (fun p => if isMarker p then {| Name := Name p; Value := "true" |} else p)
             (ProviderSpecific ep)
    else ProviderSpecific ep
         ++ [{| Name := providerSpecificInfobloxPtrRecord; Value := "true" |}].
Proof.
  unfold markEndpoint. rewrite overwriteMarker_map. simpl.
  destruct (existsb isMarker (ProviderSpecific ep)) eqn:E; simpl; [done|].
  f_equal. induction (ProviderSpecific ep) as [|p ps IH]; [done|].
  simpl in E. apply orb_false_iff in E as [Ep Eps]. simpl. rewrite Ep. f_equal. auto.
Qed.

Lemma markEndpoint_fields ep :
  DNSName (markEndpoint ep) = DNSName ep
  ∧ Targets (markEndpoint ep) = Targets ep
  ∧ RecordType (markEndpoint ep) = RecordType ep
  ∧ RecordTTL (markEndpoint ep) = RecordTTL ep.
Proof.
  unfold markEndpoint. destruct (overwriteMarker _ _) as [ps found].
  by destruct found.
Qed.

Lemma endpoint_eq (a b : Endpoint) :
  DNSName a = DNSName b → Targets a = Targets b → RecordType a = RecordType b →
  RecordTTL a = RecordTTL b → ProviderSpecific a = ProviderSpecific b → a = b.
Proof. destruct a, b; simpl; congruence. Qed.

Lemma find_marker_overwritten ps :
  existsb isMarker ps = true →
  Value <$> List.find isMarker
              (map (fun p => if isMarker p then {| Name := Name p; Value := "true" |} else p)
                   ps)
  = Some "true".
Proof.
  induction ps as [|p ps IH]; simpl; [done|].
  destruct (isMarker p) eqn:Ep; simpl.
  - intros _. unfold isMarker in *. simpl. by rewrite Ep.
  - rewrite Ep. auto.
Qed.

Lemma find_marker_appended ps :
  existsb isMarker ps = false →
  Value <$> List.find isMarker
              (ps ++ [{| Name := providerSpecificInfobloxPtrRecord; Value := "true" |}])
  = Some "true".
Proof.
  induction ps as [|p ps IH]; simpl; [done|].
  intros [Ep Eps]%orb_false_iff. rewrite Ep. auto.
Qed.

Lemma filter_marker_overwritten ps :
  length (List.filter isMarker
            (map (fun p => if isMarker p then {| Name := Name p; Value := "true" |} else p)
                 ps))
  = length (List.filter isMarker ps).
Proof.
  induction ps as [|p ps IH]; simpl; [done|].
  destruct (isMarker p) eqn:Ep; simpl.
  - unfold isMarker in *. simpl. rewrite Ep. simpl. by f_equal.
  - by rewrite Ep.
Qed.

Lemma existsb_marker_count ps :
  existsb isMarker ps = negb (Nat.eqb (length (List.filter isMarker ps)) 0).
Proof.
  induction ps as [|p ps IH]; simpl; [done|]. by destruct (isMarker p).
Qed.

Lemma markEndpoint_marker ep : ptrMarker (markEndpoint ep) = Some "true".
Proof.
  unfold ptrMarker. rewrite markEndpoint_properties.
  destruct (existsb isMarker (ProviderSpecific ep)) eqn:E.
  - by apply find_marker_overwritten.
  - by apply find_marker_appended.
Qed.

Lemma markEndpoint_count ep :
  markerCount (markEndpoint ep) = Nat.max 1 (markerCount ep).
Proof.
  unfold markerCount. rewrite markEndpoint_properties.
  pose proof (existsb_marker_count (ProviderSpecific ep)) as Hc.
  destruct (existsb isMarker (ProviderSpecific ep)).
  - rewrite filter_marker_overwritten.
    destruct (length (List.filter isMarker (ProviderSpecific ep))); [done|lia].
  - rewrite List.filter_app, length_app. simpl.
    destruct (length (List.filter isMarker (ProviderSpecific ep))); [done|done].
Qed.

Lemma markEndpoint_overwrites ep :
  0 < markerCount ep →
  length (ProviderSpecific (markEndpoint ep)) = length (ProviderSpecific ep).
Proof.
  unfold markerCount. intros Hpos. rewrite markEndpoint_properties.
  rewrite existsb_marker_count.
  destruct (length (List.filter isMarker (ProviderSpecific ep))); [lia|]. simpl.
  by rewrite length_map.
Qed.

Lemma markEndpoint_idempotent ep : markEndpoint (markEndpoint ep) = markEndpoint ep.
Proof.
  destruct (markEndpoint_fields (markEndpoint ep)) as (Hn & Ht & Hr & Httl).
  apply endpoint_eq; try done.
  rewrite (markEndpoint_properties (markEndpoint ep)).
  pose proof (markEndpoint_count ep) as Hcount. unfold markerCount in Hcount.
  rewrite existsb_marker_count, Hcount.
  destruct (length (List.filter isMarker (ProviderSpecific ep))) eqn:E; simpl.
  - rewrite markEndpoint_properties, existsb_marker_count, E. simpl.
    rewrite map_app. simpl. f_equal.
    assert (existsb isMarker (ProviderSpecific ep) = false) as Hno
      by (by rewrite existsb_marker_count, E).
    induction (ProviderSpecific ep) as [|p ps IH]; [done|].
    simpl in Hno. apply orb_false_iff in Hno as [Ep Eps]. simpl. rewrite Ep. f_equal.
    apply IH; [|done]. simpl in E. by rewrite Ep in E.
  - rewrite markEndpoint_properties, existsb_marker_count, E. simpl.
    rewrite map_map. apply map_ext. intros p.
    destruct (isMarker p) eqn:Ep; [|by rewrite Ep].
    unfold isMarker in *. simpl. by rewrite Ep.
Qed.

Lemma markerPreserved_refl ep : markerPreserved ep ep.
Proof. unfold markerPreserved. auto 10. Qed.

Lemma markerPreserved_trans a b c :
  markerPreserved a b → markerPreserved b c → markerPreserved a c.
Proof.
  unfold markerPreserved.
  intros (Hn1 & Hr1 & Ht1 & Hm1 & Hc1) (Hn2 & Hr2 & Ht2 & Hm2 & Hc2).
  split; [congruence|]. split; [congruence|]. split; [congruence|].
  split; [auto|].
  destruct Hc1 as [Hc1|(Ha & Hb & Hmb)], Hc2 as [Hc2|(Hb' & Hc' & Hmc)].
  - left. congruence.
  - right. split; [congruence|]. auto.
  - right. split; [done|]. split; [congruence|]. auto.
  - lia.
Qed.

Lemma markerPreserved_mark ep : markerPreserved ep (markEndpoint ep).
Proof.
  destruct (markEndpoint_fields ep) as (Hn & Ht & Hr & _).
  unfold markerPreserved. split; [done|]. split; [done|]. split; [done|].
  split; [intros _; apply markEndpoint_marker|].
  rewrite markEndpoint_count.
  destruct (markerCount ep) eqn:E.
  - right. split; [done|]. split; [done|]. apply markEndpoint_marker.
  - left. lia.
Qed.

Lemma markerPreserved_ttl ep ttl : markerPreserved ep (withRecordTTL ep ttl).
Proof. unfold markerPreserved, ptrMarker, markerCount. simpl. auto 10. Qed.

Lemma ptrRecordsMap_names l l' :
  Forall2 (fun a b => DNSName b = DNSName a ∧ RecordType b = RecordType a) l l' →
  ptrRecordsMap l = ptrRecordsMap l'.
Proof.
  unfold ptrRecordsMap. generalize (∅ : gmap string bool).
  intros m Hl. revert m. induction Hl as [|a b l l' [Hn Hr] Hl IH]; intros m; simpl.
  - done.
  - rewrite Hn, Hr. apply IH.
Qed.

Section MarkingFacts.
Variable IsConfigured : Z → bool.
Variable config : StartupConfig.

Lemma markPTRRecords_map endpoints :
  markPTRRecords config endpoints
  = if CreatePTR config
    then map (markOnReadOne (ptrRecordsMap endpoints)) endpoints
    else endpoints.
Proof. reflexivity. Qed.

Lemma AdjustEndpoints_map endpoints :
  AdjustEndpoints IsConfigured config endpoints = map (adjustOne IsConfigured config) endpoints.
Proof.
  unfold AdjustEndpoints, adjustOne.
  destruct (CreatePTR config); simpl; [|done]. by rewrite map_map.
Qed.

Lemma markOnReadOne_preserved m ep : markerPreserved ep (markOnReadOne m ep).
Proof.
  unfold markOnReadOne. destruct (negb _); [apply markerPreserved_refl|].
  destruct (isSet m (DNSName ep)); [apply markerPreserved_mark | apply markerPreserved_refl].
Qed.

Lemma adjustOne_preserved ep : markerPreserved ep (adjustOne IsConfigured config ep).
Proof.
  unfold adjustOne.
  assert (markerPreserved ep
            (if negb (IsConfigured (RecordTTL ep))
             then withRecordTTL ep (DefaultTTL config) else ep)) as Httl.
  { destruct (negb _); [apply markerPreserved_ttl | apply markerPreserved_refl]. }
  destruct (negb (CreatePTR config)); [done|].
  destruct (String.eqb _ RecordTypeA); [|done].
  eapply markerPreserved_trans; [exact Httl | apply markerPreserved_mark].
Qed.

Lemma markOnReadOne_idempotent m ep :
  markOnReadOne m (markOnReadOne m ep) = markOnReadOne m ep.
Proof.
  unfold markOnReadOne.
  destruct (negb (String.eqb (RecordType ep) RecordTypeA)) eqn:Ea; [by rewrite Ea|].
  destruct (isSet m (DNSName ep)) eqn:Em; [|by rewrite Ea, Em].
  destruct (markEndpoint_fields ep) as (Hn & _ & Hr & _).
  rewrite Hn, Hr, Ea, Em. apply markEndpoint_idempotent.
Qed.

Lemma adjustOne_idempotent ep : adjustOne IsConfigured config (adjustOne IsConfigured config ep)
  = adjustOne IsConfigured config ep.
Proof.
  unfold adjustOne.
  set (ep1 := if negb (IsConfigured (RecordTTL ep))
              then withRecordTTL ep (DefaultTTL config) else ep).
  assert ((if negb (IsConfigured (RecordTTL ep1))
           then withRecordTTL ep1 (DefaultTTL config) else ep1) = ep1) as Hfix.
  { unfold ep1. destruct (IsConfigured (RecordTTL ep)) eqn:E; simpl.
    - by rewrite E.
    - by destruct (IsConfigured (DefaultTTL config)). }
  assert (RecordType ep1 = RecordType ep) as Hr1 by (unfold ep1; by destruct (negb _)).
  destruct (negb (CreatePTR config)); [by rewrite Hfix|].
  destruct (String.eqb (RecordType ep1) RecordTypeA) eqn:Ea; [|by rewrite Hfix, Ea].
  destruct (markEndpoint_fields ep1) as (_ & _ & Hr & Httl).
  assert ((if negb (IsConfigured (RecordTTL (markEndpoint ep1)))
           then withRecordTTL (markEndpoint ep1) (DefaultTTL config)
           else markEndpoint ep1) = markEndpoint ep1) as ->.
  { rewrite Httl. destruct (negb (IsConfigured (RecordTTL ep1))) eqn:E; [|done].
    apply endpoint_eq; simpl; try done.
    rewrite Httl. by rewrite <- Hfix. }
  rewrite Hr, Ea. apply markEndpoint_idempotent.
Qed.

Lemma runMarking_preserved op endpoints :
  Forall2 markerPreserved endpoints (runMarking IsConfigured config op endpoints).
Proof.
  destruct op; simpl.
  - rewrite markPTRRecords_map. destruct (CreatePTR config).
    + apply Forall2_fmap_r, Forall_Forall2_diag, Forall_forall.
      intros ep _. apply markOnReadOne_preserved.
    + apply Forall_Forall2_diag, Forall_forall. intros ep _. apply markerPreserved_refl.
  - rewrite AdjustEndpoints_map.
    apply Forall2_fmap_r, Forall_Forall2_diag, Forall_forall.
    intros ep _. apply adjustOne_preserved.
Qed.

Lemma runMarkings_preserved ops endpoints :
  Forall2 markerPreserved endpoints (runMarkings IsConfigured config ops endpoints).
Proof.
  unfold runMarkings. revert endpoints. induction ops as [|op ops IH]; intros endpoints.
  - simpl. apply Forall_Forall2_diag, Forall_forall. intros ep _.
    apply markerPreserved_refl.
  - simpl. eapply Forall2_trans; [|apply runMarking_preserved|apply IH].
    intros a b c. apply markerPreserved_trans.
Qed.

Lemma runMarking_idempotent op endpoints :
  runMarking IsConfigured config op (runMarking IsConfigured config op endpoints)
  = runMarking IsConfigured config op endpoints.
Proof.
  destruct op; simpl.
  - rewrite !markPTRRecords_map. destruct (CreatePTR config); [|done].
    rewrite <- (ptrRecordsMap_names endpoints).
    + rewrite map_map. apply map_ext. intros ep. apply markOnReadOne_idempotent.
    + apply Forall2_fmap_r, Forall_Forall2_diag, Forall_forall. intros ep _.
      destruct (markOnReadOne_preserved (ptrRecordsMap endpoints) ep) as (? & ? & _).
      done.
  - rewrite !AdjustEndpoints_map, map_map. apply map_ext. intros ep.
    apply adjustOne_idempotent.
Qed.

End MarkingFacts.

(** C7. Through any sequence of marking operations of a pass (marking on
    read in [Records], marking on adjust in [AdjustEndpoints]) every
    endpoint keeps its place, name and type; a PTR marker that is "true"
    stays "true"; the number of marker properties does not change, unless
    the endpoint had none and has one afterwards, so an endpoint with at
    most one marker property never has two. Each marking operation is
    idempotent, and so is the marking of one endpoint, after which the
    marker is "true": a marker that is present is overwritten in place,
    the property list keeping its length. *)
Theorem ptr_marker_monotone_idempotent
    (IsConfigured : Z → bool) (config : StartupConfig)
    (ops : list Marking) (endpoints : list Endpoint) :
  length (runMarkings IsConfigured config ops endpoints) = length endpoints
  ∧ (∀ i ep, endpoints !! i = Some ep →
       ∃ ep', runMarkings IsConfigured config ops endpoints !! i = Some ep'
         ∧ DNSName ep' = DNSName ep
         ∧ RecordType ep' = RecordType ep
         ∧ (ptrMarker ep = Some "true" → ptrMarker ep' = Some "true")
         ∧ (markerCount ep' = markerCount ep
            ∨ (markerCount ep = 0 ∧ markerCount ep' = 1
               ∧ ptrMarker ep' = Some "true"))
         ∧ (markerCount ep ≤ 1 → markerCount ep' ≤ 1))
  ∧ (∀ op, runMarking IsConfigured config op
             (runMarking IsConfigured config op endpoints)
           = runMarking IsConfigured config op endpoints)
  ∧ (∀ ep, markEndpoint (markEndpoint ep) = markEndpoint ep
           ∧ ptrMarker (markEndpoint ep) = Some "true"
           ∧ markerCount (markEndpoint ep) = Nat.max 1 (markerCount ep)
           ∧ (0 < markerCount ep →
              length (ProviderSpecific (markEndpoint ep))
              = length (ProviderSpecific ep))).
Proof.
  pose proof (runMarkings_preserved IsConfigured config ops endpoints) as Hall.
  split; [symmetry; by eapply Forall2_length|].
  split.
  { intros i ep Hi.
    destruct (Forall2_lookup_l _ _ _ _ _ Hall Hi) as (ep' & Hi' & Hn & Hr & _ & Hm & Hc).
    exists ep'. repeat (split; [done|]). lia. }
  split; [intros op; apply runMarking_idempotent|].
  intros ep. split; [apply markEndpoint_idempotent|].
  split; [apply markEndpoint_marker|].
  split; [apply markEndpoint_count | apply markEndpoint_overwrites].
Qed.


(** ** Backend failures in [zones] and [Records] *)

Lemma fatal_Some (o : option error) e :
  fatal o = Some e ↔ o = Some e ∧ isNotFoundError e = false.
Proof.
  unfold fatal. destruct o as [e'|]; [|split; [done | by intros [? _]]].
  destruct (isNotFoundError e') eqn:E; simpl.
  - split; [done|]. intros [[= ->] ?]. congruence.
  - split; [by intros [= ->] | by intros [[= ->] _]].
Qed.

Lemma fatal_None (o : option error) :
  fatal o = None ↔ o = None ∨ ∃ e, o = Some e ∧ isNotFoundError e = true.
Proof.
  unfold fatal. destruct o as [e'|]; [|split; [by left | done]].
  destruct (isNotFoundError e') eqn:E; simpl.
  - split; [|done]. intros _. right. eauto.
  - split; [done|]. intros [?|(e & [= ->] & ?)]; [done | congruence].
Qed.

Lemma fatal_fatal (o : option error) : fatal (fatal o) = fatal o.
Proof.
  unfold fatal. destruct o as [e|]; [|done].
  destruct (isNotFoundError e) eqn:E; simpl; [done|]. by rewrite E.
Qed.

Section BackendFacts.
Variable Raw : Type.
Variable listZones : Fetched ZoneAuth.
Variable fetchRecords : nat → RecordKind → string → Fetched Raw.
Variable ToEndpoints : RecordKind → list Raw → list Endpoint.
Variable domainFilterMatch : string → bool.
Variable CidrToInAddr : string → option string.
Variable jsonUnmarshal : string → option error.
Variable config : StartupConfig.

Lemma zones_forgive :
  zones (forgive listZones) domainFilterMatch = zones listZones domainFilterMatch.
Proof. unfold zones. simpl. by rewrite fatal_fatal. Qed.

Lemma fetchKind_forgive i zone kind endpoints :
  fetchKind Raw (forgiveAll fetchRecords) ToEndpoints i zone kind endpoints
  = fetchKind Raw fetchRecords ToEndpoints i zone kind endpoints.
Proof. unfold fetchKind. simpl. by rewrite fatal_fatal. Qed.

Lemma fetchKinds_forgive i zone kinds endpoints :
  fetchKinds Raw (forgiveAll fetchRecords) ToEndpoints i zone kinds endpoints
  = fetchKinds Raw fetchRecords ToEndpoints i zone kinds endpoints.
Proof.
  revert endpoints. induction kinds as [|kind kinds IH]; intros endpoints; simpl; [done|].
  rewrite fetchKind_forgive. destruct (fetchKind _ _ _ _ _ _ _); [apply IH | done].
Qed.

Lemma fetchPTR_forgive i zone endpoints :
  fetchPTR Raw (forgiveAll fetchRecords) ToEndpoints CidrToInAddr config i zone endpoints
  = fetchPTR Raw fetchRecords ToEndpoints CidrToInAddr config i zone endpoints.
Proof.
  unfold fetchPTR. destruct (CreatePTR config); [|done].
  destruct (CidrToInAddr (Fqdn zone)); [|done]. simpl. by rewrite fatal_fatal.
Qed.

Lemma fetchZones_forgive i zs endpoints :
  fetchZones Raw (forgiveAll fetchRecords) ToEndpoints CidrToInAddr config i zs endpoints
  = fetchZones Raw fetchRecords ToEndpoints CidrToInAddr config i zs endpoints.
Proof.
  revert i endpoints. induction zs as [|zone zs IH]; intros i endpoints; simpl; [done|].
  unfold fetchZone. rewrite fetchKinds_forgive.
  destruct (fetchKinds _ _ _ _ _ _ _) as [endpoints'|]; [|done].
  rewrite fetchPTR_forgive. destruct (fetchPTR _ _ _ _ _ _ _ _); [apply IH | done].
Qed.

Lemma Records_forgive :
  Records Raw (forgive listZones) (forgiveAll fetchRecords) ToEndpoints domainFilterMatch CidrToInAddr
    jsonUnmarshal config
  = Records Raw listZones fetchRecords ToEndpoints domainFilterMatch CidrToInAddr
      jsonUnmarshal config.
Proof.
  unfold Records. rewrite zones_forgive.
  destruct (zones listZones domainFilterMatch) as [zs|]; [|done].
  destruct (deserializeEAs jsonUnmarshal _); [|done]. by rewrite fetchZones_forgive.
Qed.

Lemma fetchKind_cases i zone kind endpoints :
  match fatal (err (fetchRecords i kind (Fqdn zone))) with
  | Some e =>
      fetchKind Raw fetchRecords ToEndpoints i zone kind endpoints
      = Err (Errorf ("could not fetch " +:+ kindName kind +:+ " records from zone '%s': %w")
               [Fqdn zone] e)
  | None =>
      fetchKind Raw fetchRecords ToEndpoints i zone kind endpoints
      = Ok (endpoints ++ ToEndpoints kind (res (fetchRecords i kind (Fqdn zone))))
  end.
Proof. unfold fetchKind. by destruct (fatal _). Qed.

Lemma fetchKinds_Ok i zone kinds endpoints endpoints' :
  fetchKinds Raw fetchRecords ToEndpoints i zone kinds endpoints = Ok endpoints' →
  ∀ kind, kind ∈ kinds → fatal (err (fetchRecords i kind (Fqdn zone))) = None.
Proof.
  revert endpoints. induction kinds as [|k kinds IH]; intros endpoints; simpl.
  - intros _ kind Hk. by apply elem_of_nil in Hk.
  - pose proof (fetchKind_cases i zone k endpoints) as Hk.
    destruct (fatal (err (fetchRecords i k (Fqdn zone)))) as [e|] eqn:Ef;
      rewrite Hk; [done|].
    intros Hrest kind [->|Hin]%elem_of_cons; [done|]. by eapply IH.
Qed.

Lemma fetchPTR_Ok i zone endpoints endpoints' arpaZone :
  fetchPTR Raw fetchRecords ToEndpoints CidrToInAddr config i zone endpoints
  = Ok endpoints' →
  CreatePTR config = true → CidrToInAddr (Fqdn zone) = Some arpaZone →
  fatal (err (fetchRecords i KindPTR arpaZone)) = None.
Proof.
  unfold fetchPTR. intros Hok Hc Harpa. rewrite Hc, Harpa in Hok.
  by destruct (fatal (err (fetchRecords i KindPTR arpaZone))).
Qed.

Lemma fetchZones_Ok i zs endpoints endpoints' :
  fetchZones Raw fetchRecords ToEndpoints CidrToInAddr config i zs endpoints
  = Ok endpoints' →
  ∀ j zone, zs !! j = Some zone →
    (∀ kind, kind ∈ forwardKinds →
             fatal (err (fetchRecords (i + j) kind (Fqdn zone))) = None)
    ∧ (CreatePTR config = true →
       ∀ arpaZone, CidrToInAddr (Fqdn zone) = Some arpaZone →
                   fatal (err (fetchRecords (i + j) KindPTR arpaZone)) = None).
Proof.
  revert i endpoints. induction zs as [|z zs IH]; intros i endpoints; simpl.
  - intros _ j zone Hj. by rewrite lookup_nil in Hj.
  - unfold fetchZone.
    destruct (fetchKinds Raw fetchRecords ToEndpoints i z forwardKinds endpoints)
      as [e1|] eqn:Hkinds; [|done].
    destruct (fetchPTR Raw fetchRecords ToEndpoints CidrToInAddr config i z e1)
      as [e2|] eqn:Hptr; [|done].
    intros Hrest [|j] zone Hj; simpl in Hj.
    + injection Hj as <-. rewrite Nat.add_0_r. split.
      * by eapply fetchKinds_Ok.
      * intros Hc arpaZone Harpa. by eapply fetchPTR_Ok.
    + replace (i + S j) with (S i + j) by lia. by eapply IH.
Qed.

End BackendFacts.

(** C8. At the call sites of [zones] and [Records] (the zone listing, the
    four typed fetches of a zone and the fetch of its PTR records) a
    not-found failure does not produce an error: the call site goes on
    with what the call left in the result slice, nothing when the backend
    left nothing, and [Records] returns what it returns when every
    not-found answer is replaced by a success. Every other failure is
    returned to the caller as an error: by [zones] as it is, by [Records]
    wrapped, and [Records] returns a list of endpoints only if no call of
    the pass failed otherwise. *)
Theorem not_found_is_empty_other_failures_abort
    (Raw : Type) (listZones : Fetched ZoneAuth)
    (fetchRecords : nat → RecordKind → string → Fetched Raw)
    (ToEndpoints : RecordKind → list Raw → list Endpoint)
    (domainFilterMatch : string → bool)
    (CidrToInAddr : string → option string)
    (jsonUnmarshal : string → option error)
    (config : StartupConfig) :
  (* the zone listing *)
  (∀ e, err listZones = Some e → isNotFoundError e = true →
        zones listZones domainFilterMatch
        = Ok (List.filter (fun z => domainFilterMatch (Fqdn z)) (res listZones))
        ∧ (res listZones = [] → zones listZones domainFilterMatch = Ok []))
  ∧ (∀ e, err listZones = Some e → isNotFoundError e = false →
          zones listZones domainFilterMatch = Err e
          ∧ Records Raw listZones fetchRecords ToEndpoints domainFilterMatch
              CidrToInAddr jsonUnmarshal config
            = Err (Errorf "could not fetch zones: %w" [] e))
  (* the typed fetches of a zone *)
  ∧ (∀ i zone kind endpoints e,
        err (fetchRecords i kind (Fqdn zone)) = Some e →
        (isNotFoundError e = true →
         fetchKind Raw fetchRecords ToEndpoints i zone kind endpoints
         = Ok (endpoints ++ ToEndpoints kind (res (fetchRecords i kind (Fqdn zone)))))
        ∧ (isNotFoundError e = false →
           fetchKind Raw fetchRecords ToEndpoints i zone kind endpoints
           = Err (Errorf ("could not fetch " +:+ kindName kind
                          +:+ " records from zone '%s': %w") [Fqdn zone] e)))
  (* the fetch of the PTR records of a zone *)
  ∧ (∀ i zone arpaZone endpoints e,
        CreatePTR config = true → CidrToInAddr (Fqdn zone) = Some arpaZone →
        err (fetchRecords i KindPTR arpaZone) = Some e →
        (isNotFoundError e = true →
         fetchPTR Raw fetchRecords ToEndpoints CidrToInAddr config i zone endpoints
         = Ok (endpoints ++ ToEndpoints KindPTR (res (fetchRecords i KindPTR arpaZone))))
        ∧ (isNotFoundError e = false →
           fetchPTR Raw fetchRecords ToEndpoints CidrToInAddr config i zone endpoints
           = Err (Errorf "could not fetch PTR records from zone '%s': %w"
                    [Fqdn zone] e)))
  (* the pass *)
  ∧ Records Raw listZones fetchRecords ToEndpoints domainFilterMatch CidrToInAddr
      jsonUnmarshal config
    = Records Raw (forgive listZones) (forgiveAll fetchRecords)
        ToEndpoints domainFilterMatch CidrToInAddr jsonUnmarshal config
  ∧ (∀ endpoints,
        Records Raw listZones fetchRecords ToEndpoints domainFilterMatch CidrToInAddr
          jsonUnmarshal config = Ok endpoints →
        fatal (err listZones) = None
        ∧ ∀ i zone,
            List.filter (fun z => domainFilterMatch (Fqdn z)) (res listZones) !! i
            = Some zone →
            (∀ kind, kind ∈ forwardKinds →
                     fatal (err (fetchRecords i kind (Fqdn zone))) = None)
            ∧ (CreatePTR config = true →
               ∀ arpaZone, CidrToInAddr (Fqdn zone) = Some arpaZone →
                           fatal (err (fetchRecords i KindPTR arpaZone)) = None)).
Proof.
  split.
  { intros e He Hnf. unfold zones, fatal. rewrite He, Hnf. simpl.
    split; [done|]. by intros ->. }
  split.
  { intros e He Hnf. unfold Records, zones, fatal. by rewrite He, Hnf. }
  split.
  { intros i zone kind endpoints e He.
    pose proof (fetchKind_cases Raw fetchRecords ToEndpoints i zone kind endpoints) as Hk.
    unfold fatal in Hk. rewrite He in Hk.
    split; intros Hnf; by rewrite Hnf in Hk. }
  split.
  { intros i zone arpaZone endpoints e Hc Harpa He. unfold fetchPTR, fatal.
    rewrite Hc, Harpa, He. split; by intros ->. }
  split; [symmetry; apply Records_forgive|].
  intros endpoints. unfold Records, zones.
  destruct (fatal (err listZones)) as [e|]; [done|]. intros Hok. split; [done|].
  destruct (deserializeEAs jsonUnmarshal (ExtAttrsJSON config)); [|done].
  destruct (fetchZones Raw fetchRecords ToEndpoints CidrToInAddr config 0 _ [])
    as [eps|] eqn:Hfetch; [|done].
  intros i zone Hi.
  exact (fetchZones_Ok Raw fetchRecords ToEndpoints CidrToInAddr config 0 _ _ _
           Hfetch i zone Hi).
Qed.


(** ** Target differ: maps, targets and the store *)

Lemma keys_NoDup {V : Type} (m : gmap string V) : NoDup (keys m).
Proof. apply NoDup_fst_map_to_list. Qed.

Lemma elem_of_keys {V : Type} (m : gmap string V) k : k ∈ keys m ↔ is_Some (m !! k).
Proof.
  unfold keys. rewrite list_elem_of_fmap. split.
  - intros ([k' v] & -> & Hin). apply elem_of_map_to_list in Hin. by eexists.
  - intros [v Hv]. exists (k, v). split; [done|]. by apply elem_of_map_to_list.
Qed.

Lemma keys_singleton {V : Type} k (v : V) : keys ({[ k := v ]} : gmap string V) = [k].
Proof. unfold keys. by rewrite map_to_list_singleton. Qed.

Lemma keys_empty {V : Type} : keys (∅ : gmap string V) = [].
Proof. unfold keys. by rewrite map_to_list_empty. Qed.

Lemma targetsToMap_fold (m : gmap string bool) ts t :
  foldl (fun m v => <[v := true]> m) m ts !! t
  = if bool_decide (t ∈ ts) then Some true else m !! t.
Proof.
  revert m. induction ts as [|v ts IH]; intros m; simpl.
  - done.
  - rewrite IH. destruct (decide (t ∈ ts)) as [Hin|Hnin].
    + rewrite !bool_decide_eq_true_2; [done| |done]. apply elem_of_cons; auto.
    + rewrite (bool_decide_eq_false_2 _ Hnin). destruct (decide (v = t)) as [->|Hne].
      * rewrite lookup_insert_eq, bool_decide_eq_true_2; [done|]. apply list_elem_of_here.
      * rewrite lookup_insert_ne by done. rewrite bool_decide_eq_false_2; [done|].
        intros [?|?]%elem_of_cons; congruence.
Qed.

Lemma targetsToMap_lookup ts t :
  targetsToMap ts !! t = if bool_decide (t ∈ ts) then Some true else None.
Proof. unfold targetsToMap. by rewrite targetsToMap_fold, lookup_empty. Qed.

Lemma isSet_targetsToMap ts t : isSet (targetsToMap ts) t = bool_decide (t ∈ ts).
Proof. unfold isSet. rewrite targetsToMap_lookup. by destruct (bool_decide _). Qed.

Lemma elem_of_keys_targetsToMap ts t : t ∈ keys (targetsToMap ts) ↔ t ∈ ts.
Proof.
  rewrite elem_of_keys, targetsToMap_lookup. destruct (decide (t ∈ ts)) as [Hin|Hnin].
  - rewrite bool_decide_eq_true_2 by done. split; [done | by eexists].
  - rewrite bool_decide_eq_false_2 by done. split; [by intros [? ?] | done].
Qed.

Section OrderFacts.
Variable order : RangeOrder.
Hypothesis order_ok : RangeOrderOK order.

Lemma order_NoDup {V : Type} site (m : gmap string V) : NoDup (order site (keys m)).
Proof. rewrite (order_ok site). apply keys_NoDup. Qed.

Lemma elem_of_order site l k : k ∈ order site l ↔ k ∈ l.
Proof. by rewrite (order_ok site). Qed.

Lemma order_singleton site k : order site [k] = [k].
Proof. apply Permutation_singleton_r. apply (order_ok site). Qed.

Lemma order_nil site : order site [] = [].
Proof. apply Permutation_nil_r. apply (order_ok site). Qed.

End OrderFacts.

Lemma withTargets_id e : withTargets e (Targets e) = e.
Proof. by destruct e. Qed.

Lemma withTargets_twice e l l' : withTargets (withTargets e l) l' = withTargets e l'.
Proof. reflexivity. Qed.

Lemma removeFirst_absent t l : t ∉ l → removeFirst t l = l.
Proof.
  induction l as [|x l IH]; intros Hnin; simpl; [done|].
  destruct (String.eqb_spec x t) as [->|Hne].
  - exfalso. apply Hnin, list_elem_of_here.
  - f_equal. apply IH. intros Hin. apply Hnin, elem_of_cons; auto.
Qed.

Lemma removeFirst_count t l t' :
  count_occ string_dec (removeFirst t l) t'
  = if decide (t = t') then Nat.pred (count_occ string_dec l t')
    else count_occ string_dec l t'.
Proof.
  induction l as [|x l IH]; simpl.
  - by case_decide.
  - destruct (String.eqb_spec x t) as [->|Hne].
    + destruct (string_dec t t'); case_decide; try done; simpl; congruence.
    + simpl. rewrite IH. destruct (string_dec x t'); case_decide; try done.
      congruence.
Qed.

Lemma removeFirst_NoDup t l :
  NoDup l → removeFirst t l = List.filter (fun x => negb (String.eqb x t)) l.
Proof.
  induction 1 as [|x l Hx Hl IH]; simpl; [done|].
  destruct (String.eqb_spec x t) as [->|Hne]; simpl.
  - clear IH. induction l as [|y l IH]; [done|]. simpl.
    apply not_elem_of_cons in Hx as [Hne Hx]. apply NoDup_cons in Hl as [_ Hl].
    destruct (String.eqb_spec y t); [congruence|]. simpl. f_equal. by apply IH.
  - by rewrite IH.
Qed.


(** ** Target differ: the loops *)

Lemma elem_of_List_filter {A : Type} (P : A → bool) (l : list A) (x : A) :
  x ∈ List.filter P l ↔ x ∈ l ∧ P x = true.
Proof. rewrite !list_elem_of_In. apply filter_In. Qed.

Lemma Changes_eta c :
  {| Create := Create c; UpdateOld := UpdateOld c;
     UpdateNew := UpdateNew c; Delete := Delete c |} = c.
Proof. by destruct c. Qed.

(** [endpointsToMap] keeps for a key the endpoint listed last. *)
Lemma endpointsToMap_fold h eps (m0 m : gmap string ptr) :
  foldlM (fun m v => e ← h !! v; Some (<[endpointKey e := v]> m)) m0 eps = Some m →
  (∀ p, p ∈ eps → is_Some (h !! p))
  ∧ ∀ k, m !! k = match lastWith (hasKey h k) eps with
                  | Some p => Some p
                  | None => m0 !! k
                  end.
Proof.
  revert m0. induction eps as [|p eps IH]; intros m0; simpl.
  - intros [= <-]. split; [|done]. intros p Hp. by apply elem_of_nil in Hp.
  - destruct (h !! p) as [e|] eqn:Hp; [|done]. simpl. intros Hfold.
    destruct (IH _ Hfold) as [Hvalid Hlook]. split.
    + intros p' [->|Hin]%elem_of_cons; [by eexists | auto].
    + intros k. rewrite Hlook, lastWith_cons.
      destruct (lastWith (hasKey h k) eps); [done|].
      unfold hasKey. rewrite Hp. simpl.
      destruct (decide (endpointKey e = k)) as [<-|Hne].
      * by rewrite bool_decide_eq_true_2, lookup_insert_eq.
      * rewrite bool_decide_eq_false_2 by congruence. by rewrite lookup_insert_ne.
Qed.

Lemma endpointsToMap_last h eps m :
  endpointsToMap h eps = Some m →
  (∀ p, p ∈ eps → is_Some (h !! p))
  ∧ ∀ k, m !! k = lastWith (hasKey h k) eps.
Proof.
  intros Hm. destruct (endpointsToMap_fold h eps ∅ m Hm) as [Hvalid Hlook].
  split; [done|]. intros k. rewrite Hlook, lookup_empty.
  by destruct (lastWith _ eps).
Qed.

Lemma endpointsToMap_total h eps :
  (∀ p, p ∈ eps → is_Some (h !! p)) → is_Some (endpointsToMap h eps).
Proof.
  intros Hvalid. apply foldlM_total. intros m p Hp.
  destruct (Hvalid p Hp) as [e ->]. by eexists.
Qed.

Lemma lastWith_Some {A : Type} (P : A → bool) (l : list A) (x : A) :
  lastWith P l = Some x → x ∈ l ∧ P x = true.
Proof.
  induction l as [|a l IH]; [done|]. rewrite lastWith_cons.
  destruct (lastWith P l) as [y|].
  - intros [= ->]. destruct (IH eq_refl). split; [apply elem_of_cons; auto | done].
  - destruct (P a) eqn:E; [|done]. intros [= ->]. split; [apply list_elem_of_here | done].
Qed.

(** [newIBChanges] on valid pointers is the fan-out of the endpoints. *)
Lemma newIBChanges_fold (h : store) action (eps : list ptr) es acc :
  Forall2 (fun p e => h !! p = Some e) eps es →
  foldlM (fun changes ep =>
            e ← h !! ep;
            Some (changes ++ map (fun target =>
                                    {| Action := action;
                                       Endpoint_ := withTargets e [target] |})
                                 (Targets e)))
         acc eps
  = Some (acc ++ fanOut action es).
Proof.
  intros Hall. revert acc. induction Hall as [|p e eps es Hp Hall IH]; intros acc; simpl.
  - by rewrite app_nil_r.
  - rewrite Hp. simpl. rewrite IH. by rewrite <- app_assoc.
Qed.

Lemma newIBChanges_fanOut (h : store) action (eps : list ptr) es :
  Forall2 (fun p e => h !! p = Some e) eps es →
  newIBChanges h action eps = Some (fanOut action es).
Proof. intros Hall. unfold newIBChanges. by rewrite (newIBChanges_fold h action eps es []). Qed.

Lemma pointees_exist (h : store) (eps : list ptr) :
  (∀ p, p ∈ eps → is_Some (h !! p)) →
  ∃ es, Forall2 (fun p e => h !! p = Some e) eps es.
Proof.
  induction eps as [|p eps IH]; intros Hvalid.
  - exists []. constructor.
  - destruct (Hvalid p) as [e He]; [apply list_elem_of_here|].
    destruct IH as [es Hes]; [intros p' Hp'; apply Hvalid, elem_of_cons; auto|].
    exists (e :: es). by constructor.
Qed.

Lemma mbind_Some {A B : Type} (x : A) (f : A → option B) : Some x ≫= f = f x.
Proof. reflexivity. Qed.

Lemma foldlM_cons {A B : Type} (f : B → A → option B) (b : B) (a : A) (l : list A) :
  foldlM f b (a :: l) = b' ← f b a; foldlM f b' l.
Proof. reflexivity. Qed.

Lemma deleteTarget_step_skip oldEp newEp newTargets (h : store) c t :
  isSet newTargets t = true →
  deleteTarget_step oldEp newEp newTargets (h, c) t = Some (h, c).
Proof. intros Hset. unfold deleteTarget_step. by rewrite Hset. Qed.

Lemma deleteTarget_step_clone oldEp newEp old new newTargets (h : store) c t :
  isSet newTargets t = false →
  h !! oldEp = Some old → h !! newEp = Some new → t ∉ Targets new →
  deleteTarget_step oldEp newEp newTargets (h, c) t
  = Some (h ++ [withTargets old [t]],
          {| Create := Create c;
             UpdateOld := UpdateOld c;
             UpdateNew := UpdateNew c;
             Delete := Delete c ++ [length h] |}).
Proof.
  intros Hset Hold Hnew Habsent.
  unfold deleteTarget_step, cloneWithSingleTarget, removeTargetFromEndpoint, alloc.
  rewrite Hset, Hold. cbn [negb mbind option_bind].
  rewrite (lookup_app_l_Some _ _ _ _ Hnew). cbn [mbind option_bind].
  rewrite removeFirst_absent by done. rewrite withTargets_id.
  by rewrite (list_insert_id _ _ _ (lookup_app_l_Some _ _ _ _ Hnew)).
Qed.

Lemma createTarget_step_skip newEp oldTargets (h : store) c t :
  isSet oldTargets t = true →
  createTarget_step newEp oldTargets (h, c) t = Some (h, c).
Proof. intros Hset. unfold createTarget_step. by rewrite Hset. Qed.

Lemma createTarget_step_clone newEp new oldTargets (h : store) c t :
  isSet oldTargets t = false → h !! newEp = Some new →
  createTarget_step newEp oldTargets (h, c) t
  = Some (<[newEp := withTargets new (removeFirst t (Targets new))]>
            (h ++ [withTargets new [t]]),
          {| Create := Create c ++ [length h];
             UpdateOld := UpdateOld c;
             UpdateNew := UpdateNew c;
             Delete := Delete c |}).
Proof.
  intros Hset Hnew.
  unfold createTarget_step, cloneWithSingleTarget, removeTargetFromEndpoint, alloc.
  rewrite Hset, Hnew. cbn [negb mbind option_bind].
  by rewrite (lookup_app_l_Some _ _ _ _ Hnew).
Qed.

(** The loop over the old targets: a copy of the old endpoint for each
    target that is no new target, appended to the store and to [Delete].
    [removeTargetFromEndpoint] finds nothing to remove. *)
Lemma deleteLoop_spec oldEp newEp old new newTargets ts (h : store) c :
  h !! oldEp = Some old → h !! newEp = Some new →
  (∀ t, t ∈ ts → isSet newTargets t = false → t ∉ Targets new) →
  foldlM (deleteTarget_step oldEp newEp newTargets) (h, c) ts
  = Some (h ++ map (fun t => withTargets old [t])
                   (List.filter (fun t => negb (isSet newTargets t)) ts),
          {| Create := Create c;
             UpdateOld := UpdateOld c;
             UpdateNew := UpdateNew c;
             Delete := Delete c
                       ++ seq (length h)
                            (length (List.filter (fun t => negb (isSet newTargets t)) ts)) |}).
Proof.
  revert h c. induction ts as [|t ts IH]; intros h c Hold Hnew Habsent.
  - simpl. by rewrite !app_nil_r, Changes_eta.
  - rewrite foldlM_cons. cbn [List.filter].
    assert (∀ t', t' ∈ ts → isSet newTargets t' = false → t' ∉ Targets new) as Habsent'.
    { intros t' Ht'. apply Habsent, elem_of_cons; auto. }
    destruct (isSet newTargets t) eqn:Hset; cbn [negb].
    + rewrite deleteTarget_step_skip, mbind_Some by done. by apply IH.
    + rewrite (deleteTarget_step_clone oldEp newEp old new);
        [|done|done|done|apply Habsent; [apply list_elem_of_here | done]].
      rewrite mbind_Some.
      rewrite IH; [|by apply lookup_app_l_Some|by apply lookup_app_l_Some|done].
      cbn [Create UpdateOld UpdateNew Delete map length].
      rewrite length_app. cbn [length]. rewrite <- !app_assoc. cbn [app seq].
      by rewrite Nat.add_1_r.
Qed.

(** The loop over the new targets: a copy of the new endpoint for each
    target that is no old target, appended to the store and to [Create],
    and the first occurrence of that target leaves the new endpoint. *)
Lemma createLoop_spec newEp oldTargets ts (h : store) c new :
  h !! newEp = Some new →
  foldlM (createTarget_step newEp oldTargets) (h, c) ts
  = Some (<[newEp := withTargets new
                       (removeFirsts (List.filter (fun t => negb (isSet oldTargets t)) ts)
                                     (Targets new))]>
            (h ++ map (fun t => withTargets new [t])
                      (List.filter (fun t => negb (isSet oldTargets t)) ts)),
          {| Create := Create c
                       ++ seq (length h)
                            (length (List.filter (fun t => negb (isSet oldTargets t)) ts));
             UpdateOld := UpdateOld c;
             UpdateNew := UpdateNew c;
             Delete := Delete c |}).
Proof.
  revert h c new. induction ts as [|t ts IH]; intros h c new Hnew.
  - simpl. rewrite !app_nil_r, Changes_eta. unfold removeFirsts. simpl.
    by rewrite (withTargets_id new), (list_insert_id _ _ _ Hnew).
  - rewrite foldlM_cons. cbn [List.filter].
    destruct (isSet oldTargets t) eqn:Hset; cbn [negb].
    + rewrite createTarget_step_skip, mbind_Some by done. by apply IH.
    + rewrite (createTarget_step_clone newEp new), mbind_Some by done.
      pose proof (lookup_lt_Some _ _ _ Hnew) as Hlt.
      rewrite (IH _ _ (withTargets new (removeFirst t (Targets new)))).
      2:{ apply list_lookup_insert_eq. rewrite length_app. lia. }
      cbn [Create UpdateOld UpdateNew Delete map length Targets withTargets].
      rewrite length_insert, length_app. cbn [length].
      rewrite insert_app_l by (rewrite length_insert, length_app; cbn [length]; lia).
      rewrite list_insert_insert_eq.
      rewrite <- (insert_app_l (h ++ [withTargets new [t]]))
        by (rewrite length_app; cbn [length]; lia).
      rewrite <- (app_assoc h), <- (app_assoc (Create c)). cbn [app seq].
      unfold removeFirsts. cbn [foldl].
      by rewrite Nat.add_1_r.
Qed.

Lemma dropOld_step_keep updateNewMap (h : store) c (updateOldMap : gmap string ptr)
    k oldEp newEp :
  updateOldMap !! k = Some oldEp → updateNewMap !! k = Some newEp →
  dropOld_step updateNewMap (h, c, updateOldMap) k = Some (h, c, updateOldMap).
Proof. intros Hold Hnew. unfold dropOld_step. by rewrite Hold, Hnew. Qed.

Lemma dropOld_step_absent updateNewMap (h : store) c (updateOldMap : gmap string ptr) k :
  updateOldMap !! k = None →
  dropOld_step updateNewMap (h, c, updateOldMap) k = Some (h, c, updateOldMap).
Proof. intros Hold. unfold dropOld_step. by rewrite Hold. Qed.

Lemma diffNew_step_absent order (updateNewMap updateOldMap : gmap string ptr)
    (h : store) c k :
  updateNewMap !! k = None →
  diffNew_step order updateNewMap updateOldMap (h, c) k = Some (h, c).
Proof. intros Hnew. unfold diffNew_step. by rewrite Hnew. Qed.

Lemma diffNew_step_both order (updateNewMap updateOldMap : gmap string ptr)
    (h : store) c k oldEp newEp old new :
  updateNewMap !! k = Some newEp → updateOldMap !! k = Some oldEp →
  h !! oldEp = Some old → h !! newEp = Some new →
  diffNew_step order updateNewMap updateOldMap (h, c) k
  = st ← foldlM (deleteTarget_step oldEp newEp (targetsToMap (Targets new))) (h, c)
           (order (RangeOldTargets k) (keys (targetsToMap (Targets old))));
    foldlM (createTarget_step newEp (targetsToMap (Targets old))) st
      (order (RangeNewTargets k) (keys (targetsToMap (Targets new)))).
Proof.
  intros Hn Ho Hold Hnew. unfold diffNew_step. by rewrite Hn, Ho, Hold, Hnew.
Qed.


(** ** Target differ: one endpoint updated *)

Lemma removeFirsts_count rs l t :
  NoDup rs →
  count_occ string_dec (removeFirsts rs l) t
  = if bool_decide (t ∈ rs) then Nat.pred (count_occ string_dec l t)
    else count_occ string_dec l t.
Proof.
  intros Hnd. revert l. induction Hnd as [|r rs Hr Hnd IH]; intros l.
  - done.
  - unfold removeFirsts. cbn [foldl]. fold (removeFirsts rs (removeFirst r l)).
    rewrite IH, removeFirst_count.
    destruct (decide (r = t)) as [->|Hne].
    + rewrite (bool_decide_eq_false_2 _ Hr).
      rewrite bool_decide_eq_true_2; [done | apply list_elem_of_here].
    + destruct (decide (t ∈ rs)) as [Hin|Hnin].
      * rewrite !bool_decide_eq_true_2; [done| |done]. apply elem_of_cons; auto.
      * rewrite !bool_decide_eq_false_2; [done| |done].
        intros [?|?]%elem_of_cons; congruence.
Qed.

Lemma filter_filter_andb {A : Type} (P Q : A → bool) (l : list A) :
  List.filter P (List.filter Q l) = List.filter (fun x => Q x && P x) l.
Proof.
  induction l as [|x l IH]; simpl; [done|].
  destruct (Q x); simpl; [|done]. destruct (P x); by rewrite IH.
Qed.

Lemma NoDup_List_filter {A : Type} (P : A → bool) (l : list A) :
  NoDup l → NoDup (List.filter P l).
Proof. rewrite !NoDup_ListNoDup. apply List.NoDup_filter. Qed.

Lemma removeFirsts_NoDup rs l :
  NoDup l →
  removeFirsts rs l = List.filter (fun x => negb (bool_decide (x ∈ rs))) l.
Proof.
  revert l. induction rs as [|r rs IH]; intros l Hnd.
  - unfold removeFirsts. simpl. induction l as [|x l IHl]; [done|]. simpl.
    f_equal. apply IHl. by apply NoDup_cons in Hnd as [_ ?].
  - unfold removeFirsts. cbn [foldl]. fold (removeFirsts rs (removeFirst r l)).
    rewrite (removeFirst_NoDup r l Hnd), IH.
    + rewrite filter_filter_andb. apply filter_ext. intros x.
      destruct (String.eqb_spec x r) as [->|Hne]; simpl.
      * rewrite (bool_decide_eq_true_2 (r ∈ r :: rs)); [done | apply list_elem_of_here].
      * destruct (decide (x ∈ rs)) as [Hin|Hnin].
        -- rewrite !bool_decide_eq_true_2; [done| |done]. apply elem_of_cons; auto.
        -- rewrite !bool_decide_eq_false_2; [done| |done].
           intros [?|?]%elem_of_cons; congruence.
    + by apply NoDup_List_filter.
Qed.

Lemma fanOut_singletons action e ts :
  fanOut action (map (fun t => withTargets e [t]) ts) = map (atomic action e) ts.
Proof. induction ts as [|t ts IH]; simpl; [done|]. by rewrite IH. Qed.

Lemma fanOut_one action e : fanOut action [e] = map (atomic action e) (Targets e).
Proof. unfold fanOut. simpl. by rewrite app_nil_r. Qed.

Lemma fanOut_withTargets action e ts :
  fanOut action [withTargets e ts] = map (atomic action e) ts.
Proof. by rewrite fanOut_one. Qed.

(** The cells appended to a store are behind the next pointers. *)
Lemma appended_pointees (h : store) (es : list Endpoint) :
  Forall2 (fun p e => (h ++ es) !! p = Some e) (seq (length h) (length es)) es.
Proof.
  revert h. induction es as [|e es IH]; intros h; simpl; [constructor|].
  constructor.
  - by rewrite list_lookup_middle.
  - specialize (IH (h ++ [e])). rewrite length_app, Nat.add_1_r in IH. simpl in IH.
    by rewrite <- app_assoc in IH.
Qed.

Lemma pointees_insert (h : store) (i : nat) (x : Endpoint) (ps : list ptr) (es : list Endpoint) :
  Forall2 (fun p e => h !! p = Some e) ps es →
  i ∉ ps →
  Forall2 (fun p e => <[i := x]> h !! p = Some e) ps es.
Proof.
  induction 1 as [|p e ps es Hp Hall IH]; intros Hi; constructor.
  - rewrite list_lookup_insert_ne; [done|]. intros ->. apply Hi, list_elem_of_here.
  - apply IH. intros Hin. apply Hi, elem_of_cons; auto.
Qed.

Lemma pointees_app (h : store) (es' : list Endpoint) (ps : list ptr) (es : list Endpoint) :
  Forall2 (fun p e => h !! p = Some e) ps es →
  Forall2 (fun p e => (h ++ es') !! p = Some e) ps es.
Proof.
  induction 1; constructor; [by apply lookup_app_l_Some | done].
Qed.

Section PairFacts.
Variable order : RangeOrder.
Hypothesis order_ok : RangeOrderOK order.
Variables old new : Endpoint.
Hypothesis same_name : DNSName old = DNSName new.
Hypothesis same_type : RecordType old = RecordType new.

Lemma same_key : endpointKey old = endpointKey new.
Proof. unfold endpointKey. by rewrite same_name, same_type. Qed.

Lemma CountDiff_pair :
  CountDiff order (pairStore old new) pairChanges
  = Some (<[1 := withTargets new (keptTargets order old new)]>
            (([old; new] ++ map (fun t => withTargets old [t]) (deletedTargets order old new))
             ++ map (fun t => withTargets new [t]) (createdTargets order old new)),
          {| Create := seq (2 + length (deletedTargets order old new)) (length (createdTargets order old new));
             UpdateOld := [0];
             UpdateNew := [1];
             Delete := seq 2 (length (deletedTargets order old new)) |}).
Proof.
  unfold CountDiff, pairStore, pairChanges, endpointsToMap.
  cbn [UpdateNew UpdateOld foldlM]. cbn [lookup list_lookup mbind option_bind].
  rewrite same_key, !insert_empty, !keys_singleton, !(order_singleton order order_ok).
  rewrite !foldlM_cons.
  rewrite (dropOld_step_keep _ _ _ _ _ 0 1) by apply lookup_singleton_eq.
  rewrite mbind_Some. cbn [foldlM]. rewrite !mbind_Some.
  rewrite (diffNew_step_both order _ _ _ _ _ 0 1 old new);
    [|apply lookup_singleton_eq|apply lookup_singleton_eq|done|done].
  rewrite (deleteLoop_spec 0 1 old new); [|done|done|].
  - rewrite !mbind_Some.
    rewrite (createLoop_spec 1 _ _ _ _ new); [|done].
    cbn [Create UpdateOld UpdateNew Delete app length]. by rewrite length_map.
  - intros t _ Hset. rewrite isSet_targetsToMap in Hset.
    by apply bool_decide_eq_false in Hset.
Qed.

Lemma deleted_NoDup : NoDup (deletedTargets order old new).
Proof. apply NoDup_List_filter, order_NoDup, order_ok. Qed.

Lemma created_NoDup : NoDup (createdTargets order old new).
Proof. apply NoDup_List_filter, order_NoDup, order_ok. Qed.

Lemma elem_of_deleted t : t ∈ (deletedTargets order old new) ↔ t ∈ Targets old ∧ t ∉ Targets new.
Proof.
  unfold deletedTargets, createdTargets.
  rewrite elem_of_List_filter, (elem_of_order order order_ok), elem_of_keys_targetsToMap.
  rewrite isSet_targetsToMap, negb_true_iff, bool_decide_eq_false. done.
Qed.

Lemma elem_of_created t : t ∈ (createdTargets order old new) ↔ t ∈ Targets new ∧ t ∉ Targets old.
Proof.
  unfold deletedTargets, createdTargets.
  rewrite elem_of_List_filter, (elem_of_order order order_ok), elem_of_keys_targetsToMap.
  rewrite isSet_targetsToMap, negb_true_iff, bool_decide_eq_false. done.
Qed.

Lemma kept_count t :
  count_occ string_dec (keptTargets order old new) t
  = if bool_decide (t ∈ Targets old) then count_occ string_dec (Targets new) t
    else Nat.pred (count_occ string_dec (Targets new) t).
Proof.
  unfold keptTargets. rewrite removeFirsts_count by apply created_NoDup.
  destruct (decide (t ∈ Targets old)) as [Hold|Hold].
  - rewrite (bool_decide_eq_true_2 _ Hold), bool_decide_eq_false_2; [done|].
    rewrite elem_of_created. by intros [_ ?].
  - rewrite (bool_decide_eq_false_2 _ Hold).
    destruct (decide (t ∈ Targets new)) as [Hnew|Hnew].
    + rewrite bool_decide_eq_true_2; [done|]. by apply elem_of_created.
    + rewrite bool_decide_eq_false_2 by (rewrite elem_of_created; by intros [? _]).
      assert (count_occ string_dec (Targets new) t = 0) as ->; [|done].
      apply count_occ_not_In. by rewrite <- list_elem_of_In.
Qed.

Lemma kept_NoDup :
  NoDup (Targets new) →
  (keptTargets order old new) = List.filter (fun t => bool_decide (t ∈ Targets old)) (Targets new).
Proof.
  intros Hnd. unfold keptTargets. rewrite (removeFirsts_NoDup _ _ Hnd). apply filter_ext_in.
  intros t Hin%list_elem_of_In.
  destruct (decide (t ∈ Targets old)) as [Hold|Hold].
  - rewrite (bool_decide_eq_true_2 _ Hold), bool_decide_eq_false_2; [done|].
    rewrite elem_of_created. by intros [_ ?].
  - rewrite (bool_decide_eq_false_2 _ Hold), bool_decide_eq_true_2; [done|].
    by apply elem_of_created.
Qed.

Lemma combinedChanges_pair :
  combinedChanges order (pairStore old new) pairChanges
  = Some (map (atomic infobloxCreate new) (createdTargets order old new)
          ++ map (atomic infobloxUpdate new) (keptTargets order old new)
          ++ map (atomic infobloxDelete old) (deletedTargets order old new)).
Proof.
  unfold combinedChanges. rewrite CountDiff_pair, mbind_Some.
  cbn [Create UpdateOld UpdateNew Delete].
  set (D := map (fun t => withTargets old [t]) (deletedTargets order old new)).
  set (C := map (fun t => withTargets new [t]) (createdTargets order old new)).
  assert (length D = length (deletedTargets order old new)) as HD by apply length_map.
  assert (length C = length (createdTargets order old new)) as HC by apply length_map.
  rewrite (newIBChanges_fanOut _ infobloxCreate _ C).
  2:{ apply pointees_insert.
      - pose proof (appended_pointees ([old; new] ++ D) C) as Hp.
        rewrite length_app, HD, HC in Hp. exact Hp.
      - intros Hin%elem_of_seq. lia. }
  rewrite mbind_Some.
  rewrite (newIBChanges_fanOut _ infobloxUpdate _ [withTargets new (keptTargets order old new)]).
  2:{ constructor; [|constructor]. apply list_lookup_insert_eq.
      rewrite !length_app. simpl. lia. }
  rewrite mbind_Some.
  rewrite (newIBChanges_fanOut _ infobloxDelete _ D).
  2:{ apply pointees_insert.
      - apply pointees_app.
        pose proof (appended_pointees [old; new] D) as Hp.
        rewrite HD in Hp. exact Hp.
      - intros Hin%elem_of_seq. lia. }
  rewrite mbind_Some. unfold C, D.
  by rewrite !fanOut_singletons, fanOut_withTargets.
Qed.

End PairFacts.

Lemma idOrder_ok : RangeOrderOK idOrder.
Proof. intros site l. reflexivity. Qed.

Lemma elem_of_unchangedTargets old new t :
  t ∈ unchangedTargets old new ↔ t ∈ Targets old ∧ t ∈ Targets new.
Proof.
  unfold unchangedTargets.
  rewrite elem_of_remove_dups, elem_of_List_filter, bool_decide_eq_true. tauto.
Qed.

(** C2, as the code has it. For an old and a new endpoint of one DNS name
    and record type, [CountDiff] followed by the fan-out of [ApplyChanges]
    emits one Create for each target only in the new target set, one
    Delete for each target only in the old target set, and no Create and
    no Delete for a target of both sets, but Update changes for the
    targets the new endpoint keeps: for a target of both sets one Update
    for each of its occurrences in the new target list, exactly one when
    that list has no duplicates. No target is both created and deleted,
    and the created, the deleted and the targets of both sets partition
    the union of the two target sets. *)
Theorem update_emits_creates_deletes_and_updates
    (order : RangeOrder) (old new : Endpoint) :
  RangeOrderOK order →
  DNSName old = DNSName new → RecordType old = RecordType new →
  ∃ creates updates deletes,
    combinedChanges order (pairStore old new) pairChanges
    = Some (map (atomic infobloxCreate new) creates
            ++ map (atomic infobloxUpdate new) updates
            ++ map (atomic infobloxDelete old) deletes)
    ∧ NoDup creates
    ∧ (∀ t, t ∈ creates ↔ t ∈ Targets new ∧ t ∉ Targets old)
    ∧ NoDup deletes
    ∧ (∀ t, t ∈ deletes ↔ t ∈ Targets old ∧ t ∉ Targets new)
    ∧ (∀ t, count_occ string_dec updates t
            = if bool_decide (t ∈ Targets old)
              then count_occ string_dec (Targets new) t
              else Nat.pred (count_occ string_dec (Targets new) t))
    ∧ (NoDup (Targets new) →
       updates = List.filter (fun t => bool_decide (t ∈ Targets old)) (Targets new))
    ∧ (∀ t, ¬ (t ∈ creates ∧ t ∈ deletes))
    ∧ NoDup (creates ++ deletes ++ unchangedTargets old new)
    ∧ (∀ t, t ∈ creates ++ deletes ++ unchangedTargets old new
            ↔ t ∈ Targets old ∨ t ∈ Targets new)
    ∧ length creates + length deletes + length (unchangedTargets old new)
      = length (remove_dups (Targets old ++ Targets new)).
Proof.
  intros Hok Hname Htype.
  pose proof (elem_of_created order Hok old new) as Hc.
  pose proof (elem_of_deleted order Hok old new) as Hd.
  pose proof (created_NoDup order Hok old new) as Hcn.
  pose proof (deleted_NoDup order Hok old new) as Hdn.
  pose proof (combinedChanges_pair order Hok old new Hname Htype) as Heq.
  pose proof (kept_count order Hok old new) as Hkc.
  pose proof (kept_NoDup order Hok old new) as Hkn.
  set (creates := createdTargets order old new) in *.
  set (deletes := deletedTargets order old new) in *.
  exists creates, (keptTargets order old new), deletes.
  split; [exact Heq|].
  split; [exact Hcn|]. split; [exact Hc|]. split; [exact Hdn|]. split; [exact Hd|].
  split; [exact Hkc|]. split; [exact Hkn|].
  split.
  { intros t [[_ ?]%Hc [? _]%Hd]. done. }
  assert (NoDup (creates ++ deletes ++ unchangedTargets old new)) as Hnd.
  { apply NoDup_app. split; [exact Hcn|]. split.
    - intros t [Hnew Hnold]%Hc [[Ho _]%Hd|[Ho _]%elem_of_unchangedTargets]%elem_of_app;
        done.
    - apply NoDup_app. split; [exact Hdn|]. split.
      + intros t [_ Hnnew]%Hd [_ Hn]%elem_of_unchangedTargets. done.
      + apply NoDup_remove_dups. }
  assert (∀ t, t ∈ creates ++ deletes ++ unchangedTargets old new
               ↔ t ∈ Targets old ∨ t ∈ Targets new) as Hel.
  { intros t. rewrite !elem_of_app, Hc, Hd, elem_of_unchangedTargets.
    destruct (decide (t ∈ Targets old)), (decide (t ∈ Targets new)); tauto. }
  split; [exact Hnd|]. split; [exact Hel|].
  rewrite <- !length_app, <- app_assoc. apply Permutation_length.
  apply NoDup_Permutation; [exact Hnd | apply NoDup_remove_dups|].
  intros t. rewrite Hel, elem_of_remove_dups, elem_of_app. done.
Qed.

Lemma update_emits_creates_deletes_and_updates_witness :
  ∃ creates updates deletes,
    combinedChanges idOrder (pairStore scenarioOld scenarioNew) pairChanges
    = Some (map (atomic infobloxCreate scenarioNew) creates
            ++ map (atomic infobloxUpdate scenarioNew) updates
            ++ map (atomic infobloxDelete scenarioOld) deletes)
    ∧ (∀ t, t ∈ creates ↔ t ∈ Targets scenarioNew ∧ t ∉ Targets scenarioOld)
    ∧ (∀ t, t ∈ deletes ↔ t ∈ Targets scenarioOld ∧ t ∉ Targets scenarioNew)
    ∧ (NoDup (Targets scenarioNew) →
       updates = List.filter (fun t => bool_decide (t ∈ Targets scenarioOld))
                   (Targets scenarioNew)).
Proof.
  destruct (update_emits_creates_deletes_and_updates idOrder scenarioOld scenarioNew
              idOrder_ok eq_refl eq_refl)
    as (creates & updates & deletes & Heq & _ & Hc & _ & Hd & _ & Hu & _).
  exists creates, updates, deletes. auto.
Defined.

(** C2 as stated fails: in the scenario of the specification the target
    "2.2.2.2" of both target sets is emitted as an Update change, between
    the Create of "3.3.3.3" and the Delete of "1.1.1.1". *)
Lemma unchanged_target_is_emitted_as_update :
  combinedChanges idOrder (pairStore scenarioOld scenarioNew) pairChanges
  = Some [atomic infobloxCreate scenarioNew "3.3.3.3";
          atomic infobloxUpdate scenarioNew "2.2.2.2";
          atomic infobloxDelete scenarioOld "1.1.1.1"]
  ∧ "2.2.2.2" ∈ Targets scenarioOld
  ∧ "2.2.2.2" ∈ Targets scenarioNew.
Proof.
  split; [vm_compute; reflexivity|].
  split; [apply list_elem_of_further, list_elem_of_here | apply list_elem_of_here].
Qed.


(** ** Target differ: the old and the new batch are equal *)

Lemma List_filter_none {A : Type} (P : A → bool) (l : list A) :
  (∀ x, x ∈ l → P x = false) → List.filter P l = [].
Proof.
  induction l as [|x l IH]; intros Hall; simpl; [done|].
  rewrite (Hall x) by apply list_elem_of_here.
  apply IH. intros y Hy. apply Hall, elem_of_cons; auto.
Qed.

Lemma lastWith_related {A : Type} (R : A → A → Prop) (P Q : A → bool) (l l' : list A) :
  Forall2 R l l' → (∀ a b, R a b → P a = Q b) →
  option_Forall2 R (lastWith P l) (lastWith Q l').
Proof.
  intros Hall HPQ. induction Hall as [|a b l l' Hab Hall IH].
  - constructor.
  - rewrite !lastWith_cons. destruct IH as [x y Hxy|]; [by constructor|].
    rewrite (HPQ a b Hab). destruct (Q b); by constructor.
Qed.

Lemma samePointee_hasKey h k p q : samePointee h p q → hasKey h k p = hasKey h k q.
Proof. intros (e & Hp & Hq). unfold hasKey. by rewrite Hp, Hq. Qed.

Section SameBatch.
Variable order : RangeOrder.
Hypothesis order_ok : RangeOrderOK order.
Variable h : store.
Variables updateOldMap updateNewMap : gmap string ptr.
Hypothesis same_maps :
  ∀ k, option_Forall2 (samePointee h) (updateOldMap !! k) (updateNewMap !! k).

Lemma dropOld_nothing c ks :
  foldlM (dropOld_step updateNewMap) (h, c, updateOldMap) ks = Some (h, c, updateOldMap).
Proof.
  induction ks as [|k ks IH]; [done|]. rewrite foldlM_cons.
  pose proof (same_maps k) as Hk.
  destruct (updateOldMap !! k) as [oldEp|] eqn:Hold.
  - destruct (updateNewMap !! k) as [newEp|] eqn:Hnew; [|inversion Hk].
    by rewrite (dropOld_step_keep _ _ _ _ _ oldEp newEp), mbind_Some.
  - by rewrite dropOld_step_absent, mbind_Some.
Qed.

Lemma diffTargets_nothing c k oldEp newEp e :
  h !! oldEp = Some e → h !! newEp = Some e →
  (st ← foldlM (deleteTarget_step oldEp newEp (targetsToMap (Targets e))) (h, c)
          (order (RangeOldTargets k) (keys (targetsToMap (Targets e))));
   foldlM (createTarget_step newEp (targetsToMap (Targets e))) st
     (order (RangeNewTargets k) (keys (targetsToMap (Targets e)))))
  = Some (h, c).
Proof.
  intros Hold Hnew.
  assert (∀ site, List.filter (fun t => negb (isSet (targetsToMap (Targets e)) t))
                    (order site (keys (targetsToMap (Targets e)))) = []) as Hnone.
  { intros site. apply List_filter_none. intros t Ht.
    rewrite (elem_of_order order order_ok), elem_of_keys_targetsToMap in Ht.
    by rewrite isSet_targetsToMap, bool_decide_eq_true_2. }
  rewrite (deleteLoop_spec oldEp newEp e e); [|done|done|].
  - rewrite mbind_Some, Hnone. cbn [map length seq]. rewrite !app_nil_r, Changes_eta.
    rewrite (createLoop_spec newEp _ _ _ _ e Hnew), Hnone.
    cbn [map length seq]. rewrite !app_nil_r, Changes_eta.
    unfold removeFirsts. cbn [foldl].
    by rewrite (withTargets_id e), (list_insert_id _ _ _ Hnew).
  - intros t Ht Hset.
    rewrite (elem_of_order order order_ok), elem_of_keys_targetsToMap in Ht.
    rewrite isSet_targetsToMap, bool_decide_eq_true_2 in Hset; done.
Qed.

Lemma diffNew_nothing c ks :
  foldlM (diffNew_step order updateNewMap updateOldMap) (h, c) ks = Some (h, c).
Proof.
  induction ks as [|k ks IH]; [done|]. rewrite foldlM_cons.
  pose proof (same_maps k) as Hk.
  destruct (updateNewMap !! k) as [newEp|] eqn:Hnew.
  - destruct (updateOldMap !! k) as [oldEp|] eqn:Hold; [|inversion Hk].
    inversion Hk as [? ? (e & Ho & Hn)|]; subst.
    rewrite (diffNew_step_both order _ _ _ _ _ oldEp newEp e e) by done.
    by rewrite diffTargets_nothing, mbind_Some.
  - by rewrite diffNew_step_absent, mbind_Some.
Qed.

End SameBatch.

Lemma CountDiff_same_batches order (h : store) (c : Changes) :
  RangeOrderOK order →
  Forall2 (samePointee h) (UpdateOld c) (UpdateNew c) →
  CountDiff order h c = Some (h, c).
Proof.
  intros Hok Hsame. unfold CountDiff.
  assert (∀ p, p ∈ UpdateNew c → is_Some (h !! p)) as Hvn.
  { intros p Hp. apply list_elem_of_lookup in Hp as [i Hi].
    destruct (Forall2_lookup_r _ _ _ _ _ Hsame Hi) as (q & _ & e & _ & He). by eexists. }
  assert (∀ p, p ∈ UpdateOld c → is_Some (h !! p)) as Hvo.
  { intros p Hp. apply list_elem_of_lookup in Hp as [i Hi].
    destruct (Forall2_lookup_l _ _ _ _ _ Hsame Hi) as (q & _ & e & He & _). by eexists. }
  destruct (endpointsToMap_total h _ Hvn) as [mn Hmn].
  destruct (endpointsToMap_total h _ Hvo) as [mo Hmo].
  rewrite Hmn, Hmo, !mbind_Some.
  assert (∀ k, option_Forall2 (samePointee h) (mo !! k) (mn !! k)) as Hmaps.
  { intros k.
    rewrite (proj2 (endpointsToMap_last _ _ _ Hmn) k),
            (proj2 (endpointsToMap_last _ _ _ Hmo) k).
    apply lastWith_related; [done|]. intros p q. apply samePointee_hasKey. }
  rewrite (dropOld_nothing h mo mn Hmaps), mbind_Some.
  by apply diffNew_nothing.
Qed.

(** C5, as the code has it. When the update-old and the update-new batch
    hold the endpoints [X] (the same pointers or copies), whatever the
    create and delete batches are, [CountDiff] leaves the store and the
    four batches as they are. For the quadruple (X, X, X, empty) the
    changes [ApplyChanges] builds are then the fan-out of X as Create
    changes followed by the fan-out of X as Update changes: there is no
    Delete change, and one Create and one Update change for each target
    of each endpoint of X. *)
Theorem rediff_of_one_batch_creates_and_updates
    (order : RangeOrder) (h : store) (createBatch updateOldBatch updateNewBatch : list ptr)
    (X : list Endpoint) :
  RangeOrderOK order →
  Forall2 (fun p e => h !! p = Some e) createBatch X →
  Forall2 (fun p e => h !! p = Some e) updateOldBatch X →
  Forall2 (fun p e => h !! p = Some e) updateNewBatch X →
  CountDiff order h
    {| Create := createBatch; UpdateOld := updateOldBatch;
       UpdateNew := updateNewBatch; Delete := [] |}
  = Some (h, {| Create := createBatch; UpdateOld := updateOldBatch;
                UpdateNew := updateNewBatch; Delete := [] |})
  ∧ combinedChanges order h
      {| Create := createBatch; UpdateOld := updateOldBatch;
         UpdateNew := updateNewBatch; Delete := [] |}
    = Some (fanOut infobloxCreate X ++ fanOut infobloxUpdate X)
  ∧ length (fanOut infobloxCreate X) = length (concat (map Targets X))
  ∧ length (fanOut infobloxUpdate X) = length (concat (map Targets X))
  ∧ Forall (fun change => Action change ≠ infobloxDelete)
      (fanOut infobloxCreate X ++ fanOut infobloxUpdate X).
Proof.
  intros Hok Hc Ho Hn.
  assert (CountDiff order h
            {| Create := createBatch; UpdateOld := updateOldBatch;
               UpdateNew := updateNewBatch; Delete := [] |}
          = Some (h, {| Create := createBatch; UpdateOld := updateOldBatch;
                        UpdateNew := updateNewBatch; Delete := [] |})) as Hdiff.
  { apply CountDiff_same_batches; [done|]. cbn [UpdateOld UpdateNew].
    clear Hc. revert updateNewBatch Hn.
    induction Ho as [|p e ps es Hp Ho IH]; intros qs Hn; inversion Hn; subst;
      constructor; [by exists e | by apply IH]. }
  assert (∀ action, length (fanOut action X) = length (concat (map Targets X))) as Hlen.
  { intros action. clear. induction X as [|e es IH]; [done|].
    unfold fanOut in *. simpl. by rewrite !length_app, length_map, IH. }
  split; [exact Hdiff|]. split; [|split; [apply Hlen|split; [apply Hlen|]]].
  - unfold combinedChanges. rewrite Hdiff, mbind_Some. cbn [Create UpdateNew Delete].
    rewrite (newIBChanges_fanOut h infobloxCreate _ X Hc), mbind_Some.
    rewrite (newIBChanges_fanOut h infobloxUpdate _ X Hn), mbind_Some.
    rewrite (newIBChanges_fanOut h infobloxDelete [] []) by constructor.
    rewrite mbind_Some. unfold fanOut at 3. cbn [flat_map]. by rewrite app_nil_r.
  - apply Forall_app. split; apply Forall_forall; intros change Hin;
      unfold fanOut in Hin; apply list_elem_of_In, in_flat_map in Hin as (e & _ & Hin);
      apply in_map_iff in Hin as (t & <- & _); discriminate.
Qed.

Lemma rediff_of_one_batch_creates_and_updates_witness :
  combinedChanges idOrder [rediffEndpoint] rediffChanges
  = Some (fanOut infobloxCreate [rediffEndpoint] ++ fanOut infobloxUpdate [rediffEndpoint]).
Proof.
  assert (Forall2 (fun p e => [rediffEndpoint] !! p = Some e) [0] [rediffEndpoint]) as H0.
  { constructor; [reflexivity | constructor]. }
  exact (proj1 (proj2 (rediff_of_one_batch_creates_and_updates idOrder [rediffEndpoint]
                         [0] [0] [0] [rediffEndpoint] idOrder_ok H0 H0 H0))).
Defined.

(** C5 as stated fails: the re-diff of the batch of one endpoint with the
    target "1.1.1.1" yields a Create and an Update change for it. *)
Lemma rediff_is_not_empty :
  combinedChanges idOrder [rediffEndpoint] rediffChanges
  = Some [atomic infobloxCreate rediffEndpoint "1.1.1.1";
          atomic infobloxUpdate rediffEndpoint "1.1.1.1"]
  ∧ Create rediffChanges = UpdateOld rediffChanges
  ∧ UpdateOld rediffChanges = UpdateNew rediffChanges
  ∧ Delete rediffChanges = [].
Proof. repeat split; vm_compute; reflexivity. Qed.


(** ** Target differ: it returns on every input *)

Lemma foldlM_invariant {A B : Type} (I : B → Prop) (f : B → A → option B)
    (b : B) (l : list A) :
  (∀ b a, I b → ∃ b', f b a = Some b' ∧ I b') →
  I b → ∃ b', foldlM f b l = Some b' ∧ I b'.
Proof.
  intros Hstep. revert b. induction l as [|a l IH]; intros b Hb.
  - exists b. done.
  - destruct (Hstep b a Hb) as (b1 & Hf & Hb1). rewrite foldlM_cons, Hf, mbind_Some.
    by apply IH.
Qed.

Lemma validBatches_parts (h : store) c :
  validBatches h c
  ↔ Forall (fun p => p < length h) (Create c)
    ∧ Forall (fun p => p < length h) (UpdateOld c)
    ∧ Forall (fun p => p < length h) (UpdateNew c)
    ∧ Forall (fun p => p < length h) (Delete c).
Proof. unfold validBatches. by rewrite !Forall_app. Qed.

Lemma valid_grow (n m : nat) (ps : list ptr) :
  n ≤ m → Forall (fun p => p < n) ps → Forall (fun p => p < m) ps.
Proof. intros Hle Hps. eapply Forall_impl; [exact Hps|]. intros p. simpl. lia. Qed.

Lemma removeFromEndpointSlice_total (h : store) (eps : list ptr) (ep : ptr) :
  Forall (fun p => p < length h) eps → ep < length h →
  ∃ eps', removeFromEndpointSlice h eps ep = Some eps'
          ∧ Forall (fun p => p < length h) eps'.
Proof.
  intros Heps Hep. destruct (lookup_lt_is_Some_2 _ _ Hep) as [e' He'].
  induction Heps as [|p eps Hp Heps IH]; simpl.
  - exists []. done.
  - destruct (lookup_lt_is_Some_2 _ _ Hp) as [e He]. rewrite He, He'. simpl.
    destruct (String.eqb (DNSName e) (DNSName e')).
    + exists eps. done.
    + destruct IH as (eps' & -> & Hvalid). simpl. exists (p :: eps'). split; [done|].
      by constructor.
Qed.

Lemma deleteTarget_step_total n oldEp newEp newTargets st t :
  oldEp < n → newEp < n → inOrder n st →
  ∃ st', deleteTarget_step oldEp newEp newTargets st t = Some st' ∧ inOrder n st'.
Proof.
  destruct st as [h c]. intros Ho Hn [Hlen Hvalid]. cbn [fst snd] in *.
  unfold deleteTarget_step. destruct (negb (isSet newTargets t)); [|by eexists].
  unfold cloneWithSingleTarget, removeTargetFromEndpoint, alloc.
  destruct (lookup_lt_is_Some_2 h oldEp) as [old Hold]; [lia|].
  destruct (lookup_lt_is_Some_2 h newEp) as [new Hnew]; [lia|].
  rewrite Hold. cbn [mbind option_bind].
  rewrite (lookup_app_l_Some _ _ _ _ Hnew). cbn [mbind option_bind].
  eexists. split; [done|]. unfold inOrder. cbn [fst snd].
  rewrite length_insert, length_app. cbn [length]. split; [lia|].
  apply validBatches_parts in Hvalid as (Hc & Huo & Hun & Hd).
  apply validBatches_parts. cbn [Create UpdateOld UpdateNew Delete].
  rewrite length_insert, length_app. cbn [length].
  repeat split; try (eapply valid_grow; [|eassumption]; lia).
  apply Forall_app. split; [eapply valid_grow; [|eassumption]; lia|].
  constructor; [lia | constructor].
Qed.

Lemma createTarget_step_total n newEp oldTargets st t :
  newEp < n → inOrder n st →
  ∃ st', createTarget_step newEp oldTargets st t = Some st' ∧ inOrder n st'.
Proof.
  destruct st as [h c]. intros Hn [Hlen Hvalid]. cbn [fst snd] in *.
  unfold createTarget_step. destruct (negb (isSet oldTargets t)); [|by eexists].
  unfold cloneWithSingleTarget, removeTargetFromEndpoint, alloc.
  destruct (lookup_lt_is_Some_2 h newEp) as [new Hnew]; [lia|].
  rewrite Hnew. cbn [mbind option_bind].
  rewrite (lookup_app_l_Some _ _ _ _ Hnew). cbn [mbind option_bind].
  eexists. split; [done|]. unfold inOrder. cbn [fst snd].
  rewrite length_insert, length_app. cbn [length]. split; [lia|].
  apply validBatches_parts in Hvalid as (Hc & Huo & Hun & Hd).
  apply validBatches_parts. cbn [Create UpdateOld UpdateNew Delete].
  rewrite length_insert, length_app. cbn [length].
  repeat split; try (eapply valid_grow; [|eassumption]; lia).
  apply Forall_app. split; [eapply valid_grow; [|eassumption]; lia|].
  constructor; [lia | constructor].
Qed.

Lemma diffNew_step_total order n (updateNewMap updateOldMap : gmap string ptr) st k :
  (∀ k p, updateNewMap !! k = Some p → p < n) →
  (∀ k p, updateOldMap !! k = Some p → p < n) →
  inOrder n st →
  ∃ st', diffNew_step order updateNewMap updateOldMap st k = Some st' ∧ inOrder n st'.
Proof.
  destruct st as [h c]. intros Hmn Hmo Hst. pose proof Hst as [Hlen Hvalid].
  cbn [fst snd] in *. unfold diffNew_step.
  destruct (updateNewMap !! k) as [newEp|] eqn:Hn; [|by eexists].
  specialize (Hmn _ _ Hn).
  destruct (updateOldMap !! k) as [oldEp|] eqn:Ho.
  - specialize (Hmo _ _ Ho).
    destruct (lookup_lt_is_Some_2 h oldEp) as [old Hold]; [lia|].
    destruct (lookup_lt_is_Some_2 h newEp) as [new Hnew]; [lia|].
    rewrite Hold, Hnew. cbn [mbind option_bind].
    destruct (foldlM_invariant (inOrder n)
                (deleteTarget_step oldEp newEp (targetsToMap (Targets new))) (h, c)
                (order (RangeOldTargets k) (keys (targetsToMap (Targets old)))))
      as (st1 & -> & Hst1); [|done|].
    { intros b a. by apply deleteTarget_step_total. }
    rewrite mbind_Some. apply foldlM_invariant; [|done].
    intros b a. by apply createTarget_step_total.
  - apply validBatches_parts in Hvalid as (Hc & Huo & Hun & Hd).
    destruct (removeFromEndpointSlice_total h (UpdateNew c) newEp) as (eps' & -> & Heps');
      [done|lia|].
    rewrite mbind_Some. eexists. split; [done|]. split; [done|].
    apply validBatches_parts. cbn [Create UpdateOld UpdateNew Delete fst snd].
    repeat split; try done. apply Forall_app. split; [done|].
    constructor; [lia | constructor].
Qed.

Lemma dropOld_step_total n (updateNewMap : gmap string ptr)
    (st : store * Changes * gmap string ptr) k :
  inOrder n st.1 ∧ (∀ k p, st.2 !! k = Some p → p < n) →
  ∃ st', dropOld_step updateNewMap st k = Some st'
         ∧ inOrder n st'.1 ∧ (∀ k p, st'.2 !! k = Some p → p < n).
Proof.
  destruct st as [[h c] updateOldMap]. cbn [fst snd]. intros [Hst Hmo].
  pose proof Hst as [Hlen Hvalid]. cbn [fst snd] in *. unfold dropOld_step.
  destruct (updateOldMap !! k) as [oldEp|] eqn:Ho; [|by eexists].
  destruct (updateNewMap !! k); [by eexists|].
  specialize (Hmo _ _ Ho) as Hlt.
  apply validBatches_parts in Hvalid as (Hc & Huo & Hun & Hd).
  destruct (removeFromEndpointSlice_total h (UpdateOld c) oldEp) as (eps' & -> & Heps');
    [done|lia|].
  rewrite mbind_Some. eexists. split; [done|]. cbn [fst snd]. split; [split; [done|]|].
  - apply validBatches_parts. cbn [Create UpdateOld UpdateNew Delete fst snd].
    repeat split; try done. apply Forall_app. split; [done|].
    constructor; [lia | constructor].
  - intros k' p [_ Hp]%lookup_delete_Some. by eapply Hmo.
Qed.

Lemma endpointsToMap_valid (h : store) eps m :
  endpointsToMap h eps = Some m → ∀ k p, m !! k = Some p → p < length h.
Proof.
  intros Hm k p Hp. destruct (endpointsToMap_last h eps m Hm) as [Hvalid Hlast].
  rewrite Hlast in Hp. apply lastWith_Some in Hp as [Hin _].
  by apply lookup_lt_is_Some, Hvalid.
Qed.

Lemma CountDiff_total order (h : store) c :
  validBatches h c →
  ∃ h' c', CountDiff order h c = Some (h', c') ∧ validBatches h' c'.
Proof.
  intros Hvalid. pose proof Hvalid as (Hc & Huo & Hun & Hd)%validBatches_parts.
  unfold CountDiff.
  destruct (endpointsToMap_total h (UpdateNew c)) as [mn Hmn].
  { intros p Hp. apply lookup_lt_is_Some. by eapply (proj1 (Forall_forall _ _)) in Hun. }
  destruct (endpointsToMap_total h (UpdateOld c)) as [mo Hmo].
  { intros p Hp. apply lookup_lt_is_Some. by eapply (proj1 (Forall_forall _ _)) in Huo. }
  rewrite Hmn, Hmo, !mbind_Some.
  destruct (foldlM_invariant
              (fun st : store * Changes * gmap string ptr =>
                 inOrder (length h) st.1 ∧ ∀ k p, st.2 !! k = Some p → p < length h)
              (dropOld_step mn) (h, c, mo) (order RangeUpdateOldMap (keys mo)))
    as ([[h1 c1] mo1] & -> & Hst1 & Hmo1).
  { intros b a. apply dropOld_step_total. }
  { split; [by split|]. by eapply endpointsToMap_valid. }
  rewrite mbind_Some. cbn [fst snd] in *.
  destruct (foldlM_invariant (inOrder (length h)) (diffNew_step order mn mo1) (h1, c1)
              (order RangeUpdateNewMap (keys mn)))
    as ([h2 c2] & -> & _ & Hvalid2); [| done |].
  { intros b a. apply diffNew_step_total; [|done]. by eapply endpointsToMap_valid. }
  by exists h2, c2.
Qed.

Lemma newIBChanges_total (h : store) action (eps : list ptr) :
  Forall (fun p => p < length h) eps →
  ∃ es, Forall2 (fun p e => h !! p = Some e) eps es
        ∧ newIBChanges h action eps = Some (fanOut action es).
Proof.
  intros Hvalid. destruct (pointees_exist h eps) as [es Hes].
  { intros p Hp. apply lookup_lt_is_Some. by eapply (proj1 (Forall_forall _ _)) in Hvalid. }
  exists es. split; [done|]. by apply newIBChanges_fanOut.
Qed.

Lemma combinedChanges_total order (h : store) c :
  validBatches h c → ∃ changes, combinedChanges order h c = Some changes.
Proof.
  intros Hvalid. unfold combinedChanges.
  destruct (CountDiff_total order h c Hvalid) as (h' & c' & -> & Hvalid').
  apply validBatches_parts in Hvalid' as (Hc & _ & Hun & Hd). rewrite mbind_Some.
  destruct (newIBChanges_total h' infobloxCreate _ Hc) as (? & _ & ->).
  destruct (newIBChanges_total h' infobloxUpdate _ Hun) as (? & _ & ->).
  destruct (newIBChanges_total h' infobloxDelete _ Hd) as (? & _ & ->).
  rewrite !mbind_Some. by eexists.
Qed.

(** C9, as the code has it. The differ checks no precondition. On every
    input whose batches hold pointers into the store, with or without a
    key collision in the update-old or update-new batch and with or
    without endpoints of zero-length target lists, [CountDiff] and the
    fan-out return a change list: there is no failure. The index of a
    batch keeps for a key the endpoint listed last, and an endpoint with
    no targets is fanned out into no change. *)
Theorem malformed_input_is_not_rejected
    (order : RangeOrder) (h : store) (c : Changes) :
  validBatches h c →
  (∃ changes, combinedChanges order h c = Some changes)
  ∧ (∃ updateOldMap,
       endpointsToMap h (UpdateOld c) = Some updateOldMap
       ∧ ∀ k, updateOldMap !! k = lastWith (hasKey h k) (UpdateOld c))
  ∧ (∃ updateNewMap,
       endpointsToMap h (UpdateNew c) = Some updateNewMap
       ∧ ∀ k, updateNewMap !! k = lastWith (hasKey h k) (UpdateNew c))
  ∧ (∀ action p e,
       h !! p = Some e → Targets e = [] → newIBChanges h action [p] = Some []).
Proof.
  intros Hvalid. split; [by apply combinedChanges_total|].
  pose proof Hvalid as (_ & Huo & Hun & _)%validBatches_parts.
  split; [|split].
  - destruct (endpointsToMap_total h (UpdateOld c)) as [m Hm].
    { intros p Hp. apply lookup_lt_is_Some.
      by eapply (proj1 (Forall_forall _ _)) in Huo. }
    exists m. split; [done|]. by apply endpointsToMap_last.
  - destruct (endpointsToMap_total h (UpdateNew c)) as [m Hm].
    { intros p Hp. apply lookup_lt_is_Some.
      by eapply (proj1 (Forall_forall _ _)) in Hun. }
    exists m. split; [done|]. by apply endpointsToMap_last.
  - intros action p e Hp Hnone.
    rewrite (newIBChanges_fanOut h action [p] [e]) by (constructor; [done|constructor]).
    by rewrite fanOut_one, Hnone.
Qed.

Lemma malformed_input_is_not_rejected_witness :
  validBatches collisionStore collisionChanges
  ∧ wellFormedInput collisionStore collisionChanges = false
  ∧ ∃ changes, combinedChanges idOrder collisionStore collisionChanges = Some changes.
Proof.
  assert (validBatches collisionStore collisionChanges) as Hvalid.
  { unfold validBatches. simpl. repeat constructor. }
  split; [exact Hvalid|]. split; [vm_compute; reflexivity|].
  exact (proj1 (malformed_input_is_not_rejected idOrder collisionStore collisionChanges
                  Hvalid)).
Defined.

(** C9 as stated fails. The update-old batch with two endpoints of the key
    of "a.example.com" is not rejected: the index keeps the second one,
    whose target the new endpoint has, so the first one, with the target
    "1.1.1.1", is neither deleted nor reported. The endpoint without
    targets is not rejected either: it is fanned out into no change. *)
Lemma malformed_input_is_diffed :
  uniqueKeys collisionStore (UpdateOld collisionChanges) = false
  ∧ wellFormedInput collisionStore collisionChanges = false
  ∧ combinedChanges idOrder collisionStore collisionChanges
    = Some [atomic infobloxUpdate
              (mkEndpoint "a.example.com" RecordTypeA ["9.9.9.9"]) "9.9.9.9"]
  ∧ wellFormedInput noTargetStore noTargetChanges = false
  ∧ combinedChanges idOrder noTargetStore noTargetChanges = Some [].
Proof. repeat split; vm_compute; reflexivity. Qed.
